(** * make_bias_dielectric_workflow.py: finite-field sweep input generation

    A shallow embedding of the script [make_bias_dielectric_workflow.py] and
    the properties of its control flow, its parameter dictionaries and its
    one linear-algebra computation.

    Conventions.
    - Python [str] values are [string]s whose characters are the code points
      below 256.
    - Python [float] values (NumPy [float64] included) are kept behind the
      interface [Arith]; it has two instances, [binary64] (IEEE 754 double
      precision, what the interpreter computes) and [exact] (the real
      numbers, the arithmetic the comments of the script reason in).
    - [dict] objects live in a heap and are passed by reference.
    - Calls that leave the script (Materials Project API, file system,
      pymatgen) are oracles over an abstract state of the outside world;
      each call is recorded in an event log.
    - Console output ([print]) is not modelled. *)

From Stdlib Require Uint63 FloatOps.
From Stdlib Require Import PrimFloat SpecFloat.
From Stdlib Require Import ZArith QArith Lia Reals Lra.
From stdpp Require Import base gmap strings list pretty.

#[local] Set Warnings "-inexact-float".

Local Open Scope string_scope.
Local Open Scope list_scope.
Local Open Scope Z_scope.

(** ** Python strings *)

Module PyStr.

(** [str.isspace] on one character, for code points below 256:
    TAB..CR, FS..US, SPACE, NEL and NBSP. *)
Definition isspace (c : Ascii.ascii) : bool :=
  let n := Ascii.N_of_ascii c in
  ((9 <=? n) && (n <=? 13) || (28 <=? n) && (n <=? 32) ||
   (n =? 133) || (n =? 160))%N.

Fixpoint lstrip (s : string) : string :=
  match s with
  | EmptyString => EmptyString
  | String c r => if isspace c then lstrip r else s
  end.

Definition rstrip (s : string) : string :=
  String.rev (lstrip (String.rev s)).

(** [s.strip()] *)
Definition strip (s : string) : string := rstrip (lstrip s).

(** Truth value of a string: non-empty. *)
Definition truthy (s : string) : bool :=
  match s with EmptyString => false | String _ _ => true end.

End PyStr.

(** ** Exceptions *)

(** An instance of a class derived from [Exception]: class name and
    message. *)
Record exn := Exn { exn_class : string; exn_msg : string }.

Inductive outcome (A : Type) :=
| Ok (a : A)
| Raise (e : exn).
Arguments Ok {A} a.
Arguments Raise {A} e.

(** ** Floating-point interface *)

Class Arith (F : Type) := {
  fadd : F → F → F;
  fmul : F → F → F;
  fdiv : F → F → F;
  fsqrt : F → F;
  (** the decimal literal [m]e[k] of the source text *)
  flit : Z → Z → F
}.

Record vec3 (F : Type) := V3 { vx : F; vy : F; vz : F }.
Arguments V3 {F} vx vy vz.
Arguments vx {F} v.
Arguments vy {F} v.
Arguments vz {F} v.

Section LinearAlgebra.
Context {F : Type} `{Arith F}.

(** [np.linalg.norm(v)] on a one-dimensional array: [sqrt(dot(v, v))]. *)
Definition norm (v : vec3 F) : F :=
  fsqrt (fadd (fadd (fmul (vx v) (vx v)) (fmul (vy v) (vy v)))
              (fmul (vz v) (vz v))).

(** [v / s], elementwise. *)
Definition vdiv (v : vec3 F) (s : F) : vec3 F :=
  V3 (fdiv (vx v) s) (fdiv (vy v) s) (fdiv (vz v) s).

(** [v * s], elementwise. *)
Definition vmul (v : vec3 F) (s : F) : vec3 F :=
  V3 (fmul (vx v) s) (fmul (vy v) s) (fmul (vz v) s).

(** [v.tolist()] *)
Definition tolist (v : vec3 F) : list F := [vx v; vy v; vz v].

(** Line 161: [c_hat = matrix[2] / np.linalg.norm(matrix[2])]. *)
Definition c_hat_of (c : vec3 F) : vec3 F := vdiv c (norm c).

(** Line 167: [evec = (c_hat * E).tolist()], kept as a vector. *)
Definition evec_of (c : vec3 F) (E : F) : vec3 F := vmul (c_hat_of c) E.
End LinearAlgebra.

(** *** IEEE 754 binary64 *)

Module Binary64.

Definition of_Z (z : Z) : PrimFloat.float :=
  let a := PrimFloat.of_uint63 (Uint63.of_Z (Z.abs z)) in
  if z <? 0 then PrimFloat.opp a else a.

(** A literal [m]e[k] with [|m|] and [10^|k|] below [2^53] is the correctly
    rounded quotient or product of two exactly represented integers. *)
Definition literal (m k : Z) : PrimFloat.float :=
  if k <? 0 then PrimFloat.div (of_Z m) (of_Z (10 ^ (- k)))
  else PrimFloat.mul (of_Z m) (of_Z (10 ^ k)).

(** [round(m * 2^e * 10^4)], ties to even, for [0 < m]. *)
Definition scaled_round (m : positive) (e : Z) : Z :=
  let num := Z.pos m * 10000 in
  if 0 <=? e then num * 2 ^ e
  else
    let den := 2 ^ (- e) in
    let q := num / den in
    let r := num mod den in
    match 2 * r ?= den with
    | Lt => q
    | Gt => q + 1
    | Eq => if Z.even q then q else q + 1
    end.

Definition pad4 (n : Z) : string :=
  let s := pretty n in
  match String.length s with
  | 0%nat => "0000" | 1%nat => "000" +:+ s | 2%nat => "00" +:+ s
  | 3%nat => "0" +:+ s | _ => s
  end.

(** [f"{x:.4f}"] *)
Definition format_4f (x : PrimFloat.float) : string :=
  match FloatOps.Prim2SF x with
  | S754_nan => "nan"
  | S754_infinity s => if s then "-inf" else "inf"
  | S754_zero s => (if s then "-" else "") +:+ "0.0000"
  | S754_finite s m e =>
      let n := scaled_round m e in
      (if s then "-" else "") +:+ pretty (n / 10000) +:+ "." +:+
      pad4 (n mod 10000)
  end.

(** The rational number a finite binary64 value stands for. *)
Definition to_Q (x : PrimFloat.float) : option Q :=
  match FloatOps.Prim2SF x with
  | S754_zero _ => Some 0%Q
  | S754_finite s m e =>
      Some ((if s then -1 else 1) * (Z.pos m # 1) * Qpower 2 e)%Q
  | _ => None
  end.

(** The square of the Euclidean norm of a binary64 vector, computed without
    rounding. *)
Definition exact_sq_norm (v : vec3 PrimFloat.float) : option Q :=
  match to_Q (vx v), to_Q (vy v), to_Q (vz v) with
  | Some x, Some y, Some z => Some (Qred (x * x + y * y + z * z))%Q
  | _, _, _ => None
  end.

End Binary64.

#[export] Instance binary64 : Arith PrimFloat.float := {|
  fadd := PrimFloat.add;
  fmul := PrimFloat.mul;
  fdiv := PrimFloat.div;
  fsqrt := PrimFloat.sqrt;
  flit := Binary64.literal
|}.

(** *** Exact arithmetic *)

#[export] Instance exact : Arith R := {|
  fadd := Rplus;
  fmul := Rmult;
  fdiv := Rdiv;
  fsqrt := R_sqrt.sqrt;
  flit := fun m k => (IZR m * powerRZ 10 k)%R
|}.

(** ** Lines 14-16: the API key *)

(** [os.environ] *)
Definition environ := gmap string string.

Definition getenv (env : environ) (name : string) : option string :=
  env !! name.

(** Truth value of [os.getenv(...)]: [None] and [""] are false. *)
Definition truthy_opt (o : option string) : bool :=
  match o with
  | Some s => PyStr.truthy s
  | None => false
  end.

(** [a or b] *)
Definition py_or (a b : option string) : option string :=
  if truthy_opt a then a else b.

(** Line 14. *)
Definition api_key_of (env : environ) : option string :=
  py_or (getenv env "MP_API_KEY") (getenv env "PMG_MAPI_KEY").

Definition RuntimeError_no_key : exn :=
  Exn "RuntimeError" "Set MP_API_KEY (or PMG_MAPI_KEY) in your environment.".

(** Lines 14-16: the key in use, or the [RuntimeError]. *)
Definition load_api_key (env : environ) : outcome string :=
  let api_key := api_key_of env in
  if negb (truthy_opt api_key) then Raise RuntimeError_no_key
  else match api_key with
       | Some k => Ok k
       | None => Raise RuntimeError_no_key
       end.

(** ** Lines 20-48: [read_mp_ids_from_csv] *)

(** What [csv.reader] yields for an open file: the records (lists of
    fields) in file order, until the end of the file or until an error is
    raised while decoding or parsing. *)
Inductive records :=
| RecEnd
| RecRow (fields : list string) (rest : records)
| RecError (e : exn).

(** What [open(csv_path, 'r', encoding='utf-8')] gives. *)
Inductive csv_file :=
| OpenFails (e : exn)
| Opened (rs : records).

Module DictReader.

(** A cell of a row dictionary: a field of the record, or [None] (the
    default [restval]) where the record is shorter than the header. *)
Definition cell := option string.
Abbreviation row := (gmap string cell).

(** [dict(zip(fieldnames, record))]: a later column overwrites an earlier
    one of the same name. *)
Definition dict_zip (fieldnames record : list string) : row :=
  foldl (fun d kv => <[kv.1 := Some kv.2]> d) ∅ (zip fieldnames record).

(** [DictReader.__next__], after the record was read: the dictionary of
    the row. Fields beyond the header go under the key [None], which no
    string key reaches; they are left out. *)
Definition make_row (fieldnames record : list string) : row :=
  let d := dict_zip fieldnames record in
  if (length record <? length fieldnames)%nat
  then foldl (fun d key => <[key := None]> d) d
             (drop (length record) fieldnames)
  else d.

End DictReader.

Definition AttributeError_strip : exn :=
  Exn "AttributeError" "'NoneType' object has no attribute 'strip'".

(** Lines 37-38, the body of the loop over the rows; [mp_ids] is the list
    being appended to. *)
Definition row_body (row : DictReader.row) (mp_ids : list string)
  : outcome unit * list string :=
  match row !! "material_id" with
  | None => (Ok tt, mp_ids)
  | Some None => (Raise AttributeError_strip, mp_ids)
  | Some (Some v) =>
      if PyStr.truthy (PyStr.strip v)
      then (Ok tt, mp_ids ++ [PyStr.strip v])
      else (Ok tt, mp_ids)
  end.

(** Line 36, [for row in reader], once the header is known: empty records
    are skipped by [DictReader]. *)
Fixpoint for_rows (fieldnames : list string) (rs : records)
    (mp_ids : list string) : outcome unit * list string :=
  match rs with
  | RecEnd => (Ok tt, mp_ids)
  | RecError e => (Raise e, mp_ids)
  | RecRow [] rest => for_rows fieldnames rest mp_ids
  | RecRow record rest =>
      match row_body (DictReader.make_row fieldnames record) mp_ids with
      | (Ok _, mp_ids') => for_rows fieldnames rest mp_ids'
      | (Raise e, mp_ids') => (Raise e, mp_ids')
      end
  end.

(** Lines 33-38: the [with] block. The first record is the header. *)
Definition with_open (f : csv_file) (mp_ids : list string)
  : outcome unit * list string :=
  match f with
  | OpenFails e => (Raise e, mp_ids)
  | Opened RecEnd => (Ok tt, mp_ids)
  | Opened (RecError e) => (Raise e, mp_ids)
  | Opened (RecRow fieldnames rest) => for_rows fieldnames rest mp_ids
  end.

(** Lines 32-46: [try: ... except FileNotFoundError: ... except Exception
    as e: ...]; both handlers only print. *)
Definition try_read (f : csv_file) (mp_ids : list string)
  : outcome unit * list string :=
  match with_open f mp_ids with
  | (Ok u, mp_ids') => (Ok u, mp_ids')
  | (Raise e, mp_ids') =>
      if String.eqb (exn_class e) "FileNotFoundError"
      then (Ok tt, mp_ids')
      else (Ok tt, mp_ids')
  end.

(** Lines 30-48. *)
Definition read_mp_ids_from_csv (f : csv_file) : outcome (list string) :=
  let mp_ids := [] in
  match try_read f mp_ids with
  | (Ok _, mp_ids') => Ok mp_ids'
  | (Raise e, _) => Raise e
  end.

(** ** Values, structures, paths *)

(** The Python values that occur in the parameter dictionaries. *)
Inductive pyval (F : Type) :=
| PBool (b : bool)
| PInt (n : Z)
| PFloat (x : F)
| PStr (s : string)
| PList (xs : list F).
Arguments PBool {F} b.
Arguments PInt {F} n.
Arguments PFloat {F} x.
Arguments PStr {F} s.
Arguments PList {F} xs.

Abbreviation dict F := (gmap string (pyval F)).

(** A dictionary display [{k1: v1, k2: v2, ...}] or the keyword part of
    [{**d, k1: v1, ...}]: the items are stored from left to right. *)
Definition dict_update {F} (d : dict F) (items : list (string * pyval F))
  : dict F :=
  foldl (fun d kv => <[kv.1 := kv.2]> d) d items.

(** [structure.lattice.matrix], a 3 x 3 array, by rows. *)
Record Lattice (F : Type) := {
  matrix_0 : vec3 F;
  matrix_1 : vec3 F;
  matrix_2 : vec3 F
}.
Arguments matrix_0 {F} l.
Arguments matrix_1 {F} l.
Arguments matrix_2 {F} l.

(** The part of a pymatgen [Structure] the script looks at. *)
Record Structure (F : Type) := {
  reduced_formula : string;
  lattice : Lattice F
}.
Arguments reduced_formula {F} s.
Arguments lattice {F} s.

Record Kpoints := { kpts_style : string; kpts : Z * Z * Z }.

(** [Kpoints.gamma_automatic(kpts=...)] *)
Definition gamma_automatic (k : Z * Z * Z) : Kpoints :=
  {| kpts_style := "Gamma"; kpts := k |}.

(** A [pathlib.Path], by components. *)
Definition path := list string.
Definition Path (s : string) : path := [s].
Definition joinpath (p : path) (name : string) : path := p ++ [name].
Infix "/:" := joinpath (at level 40, left associativity).

(** [str(p)] *)
Fixpoint path_str (p : path) : string :=
  match p with
  | [] => "."
  | [s] => s
  | s :: q => s +:+ "/" +:+ path_str q
  end.

(** ** Lines 79-96: [common_incar] *)

Section CommonIncar.
Context {F : Type} `{Arith F}.

Definition common_incar_items : list (string * pyval F) :=
  [ ("LCALCEPS", PBool false);
    ("LCALCPOL", PBool true);
    ("ISMEAR", PInt 0);
    ("SIGMA", PFloat (flit 5 (-2)));
    ("EDIFF", PFloat (flit 1 (-6)));
    ("PREC", PStr "Accurate");
    ("ADDGRID", PBool true);
    ("LREAL", PBool false);
    ("LCHARG", PBool false);
    ("LWAVE", PBool false);
    ("ENCUT", PInt 520);
    ("NSW", PInt 0);
    ("IBRION", PInt (-1));
    ("ISYM", PInt 0);
    ("SYMPREC", PFloat (flit 1 (-8)));
    ("LASPH", PBool true) ].

Definition common_incar : dict F := dict_update ∅ common_incar_items.
End CommonIncar.

(** ** The outside world and the event log *)

Inductive event (F : Type) :=
| EvOpen (csv_path : string)
| EvGetStructure (api_key mp_id : string)
| EvMkdir (p : path) (parents exist_ok : bool)
| EvStaticSet (s : Structure F) (user_incar_settings : dict F)
    (user_kpoints_settings : Kpoints)
| EvWriteInput (dir : string) (potcar_spec : bool).
Arguments EvOpen {F} csv_path.
Arguments EvGetStructure {F} api_key mp_id.
Arguments EvMkdir {F} p parents exist_ok.
Arguments EvStaticSet {F} s user_incar_settings user_kpoints_settings.
Arguments EvWriteInput {F} dir potcar_spec.

(** The state the script runs in: the outside world and the heap of
    [dict] objects, addressed by position. *)
Record World (Ext F : Type) := {
  ext : Ext;
  heap : list (dict F)
}.
Arguments ext {Ext F} w.
Arguments heap {Ext F} w.

(** Result of running a piece of the script: value or exception, the
    calls made, and the state left. *)
Record res (Ext F A : Type) := {
  out : outcome A;
  log : list (event F);
  fin : World Ext F
}.
Arguments out {Ext F A} r.
Arguments log {Ext F A} r.
Arguments fin {Ext F A} r.

Definition M (Ext F A : Type) : Type := World Ext F → res Ext F A.

Section Monad.
Context {Ext F : Type}.

Definition ret {A} (a : A) : M Ext F A :=
  fun w => {| out := Ok a; log := []; fin := w |}.

Definition raise {A} (e : exn) : M Ext F A :=
  fun w => {| out := Raise e; log := []; fin := w |}.

Definition bind {A B} (m : M Ext F A) (k : A → M Ext F B) : M Ext F B :=
  fun w =>
    let r := m w in
    match out r with
    | Ok a =>
        let r' := k a (fin r) in
        {| out := out r'; log := log r ++ log r'; fin := fin r' |}
    | Raise e => {| out := Raise e; log := log r; fin := fin r |}
    end.

(** [try: m  except Exception as e: h e] *)
Definition try_except {A} (m : M Ext F A) (h : exn → M Ext F A)
  : M Ext F A :=
  fun w =>
    let r := m w in
    match out r with
    | Ok a => r
    | Raise e =>
        let r' := h e (fin r) in
        {| out := out r'; log := log r ++ log r'; fin := fin r' |}
    end.

Definition lift {A} (o : outcome A) : M Ext F A :=
  match o with
  | Ok a => ret a
  | Raise e => raise e
  end.
End Monad.

Notation "'let*' x := m 'in' k" := (bind m (fun x => k))
  (at level 10, x name, m at level 100, k at level 200).

(** [xs[:n]] for an integer [n]: a negative [n] counts from the end. *)
Definition slice_to {A} (xs : list A) (n : Z) : list A :=
  if n <? 0 then take (Z.to_nat (Z.of_nat (length xs) + n)) xs
  else take (Z.to_nat n) xs.

(** Line 122. *)
Definition materials_to_process_of (mp_ids : list string)
    (max_materials : Z) : list string :=
  slice_to mp_ids max_materials.

(** Lines 194-195 and 51. *)
Definition MAX_MATERIALS : Z := 256.

Definition E_FIELD_MAGNITUDES {F} `{Arith F} : list F :=
  [flit (-3) (-3); flit (-1) (-3); flit 1 (-3); flit 3 (-3)].

Definition csv_file_path : string :=
  "/Users/jaekwansmac/Desktop/MP_dielectric_constant/perovskite_dielectric_bec_data.csv".

Definition ZeroDivisionError : exn :=
  Exn "ZeroDivisionError" "division by zero".

Definition NameError (name : string) : exn :=
  Exn "NameError" ("name '" +:+ name +:+ "' is not defined").

(** ** Lines 57-70 and 108-191: the sweep *)

(** The calls that leave the script. Each takes the state of the outside
    world and returns the outcome of the call and the state it leaves. *)
Class Outside (Ext F : Type) := {
  (** [f"{E:.4f}"] *)
  format_4f : F → string;
  (** [open(csv_path, 'r', encoding='utf-8')] and the reading of it *)
  fs_open : string → Ext → csv_file * Ext;
  (** [MPClient(api_key).get_structure_by_material_id(mp_id)] *)
  mp_get_structure_by_material_id :
    string → string → Ext → outcome (Structure F) * Ext;
  (** [p.mkdir(parents, exist_ok)] *)
  fs_mkdir : path → bool → bool → Ext → outcome unit * Ext;
  (** [MPStaticSet(structure, user_incar_settings, user_kpoints_settings)] *)
  pmg_MPStaticSet :
    Structure F → dict F → Kpoints → Ext → outcome unit * Ext;
  (** [vset.write_input(dir, potcar_spec)] *)
  pmg_write_input :
    Structure F → dict F → Kpoints → string → bool → Ext →
    outcome unit * Ext;
  (** what pymatgen leaves in a dictionary it was handed *)
  pmg_touch : Ext → dict F → dict F
}.

Section Script.
Context {Ext F : Type} `{Arith F} `{Outside Ext F}.

Abbreviation M' := (M Ext F).

Definition external {A} (ev : event F) (call : Ext → outcome A * Ext)
  : M' A :=
  fun w =>
    let '(o, x) := call (ext w) in
    {| out := o; log := [ev]; fin := {| ext := x; heap := heap w |} |}.

(** Lines 68-70. *)
Definition get_structure_from_mp (mp_id api_key : string)
  : M' (Structure F) :=
  external (EvGetStructure api_key mp_id)
           (mp_get_structure_by_material_id api_key mp_id).

(** [p.mkdir(parents=..., exist_ok=...)] *)
Definition mkdir (p : path) (parents exist_ok : bool) : M' unit :=
  external (EvMkdir p parents exist_ok) (fs_mkdir p parents exist_ok).

(** [{**src, k1: v1, ...}] for the dictionary object at [src]: a new
    object. *)
Definition dict_spread (name : string) (src : nat)
    (items : list (string * pyval F)) : M' nat :=
  fun w =>
    match heap w !! src with
    | None => raise (NameError name) w
    | Some d =>
        {| out := Ok (length (heap w));
           log := [];
           fin := {| ext := ext w;
                     heap := heap w ++ [dict_update d items] |} |}
    end.

(** An [MPStaticSet] object: it keeps the references it was built
    from. *)
Record vasp_set := {
  vs_structure : Structure F;
  vs_incar : nat;
  vs_kpoints : Kpoints
}.

(** A call into pymatgen that has the dictionary object at [ref] in
    reach. *)
Definition with_dict {A} (ref : nat) (ev : dict F → event F)
    (call : dict F → Ext → outcome A * Ext) : M' A :=
  fun w =>
    match heap w !! ref with
    | None => raise (NameError "user_incar_settings") w
    | Some d =>
        let '(o, x) := call d (ext w) in
        {| out := o;
           log := [ev d];
           fin := {| ext := x;
                     heap := <[ref := pmg_touch x d]> (heap w) |} |}
    end.

(** [MPStaticSet(structure, user_incar_settings=..., user_kpoints_settings=...)] *)
Definition MPStaticSet (s : Structure F) (incar : nat) (k : Kpoints)
  : M' vasp_set :=
  let* _ := with_dict incar (fun d => EvStaticSet s d k)
              (fun d => pmg_MPStaticSet s d k) in
  ret {| vs_structure := s; vs_incar := incar; vs_kpoints := k |}.

(** [vset.write_input(dir, potcar_spec=...)] *)
Definition write_input (v : vasp_set) (dir : string) (potcar_spec : bool)
  : M' unit :=
  with_dict (vs_incar v) (fun _ => EvWriteInput dir potcar_spec)
    (fun d => pmg_write_input (vs_structure v) d (vs_kpoints v) dir
                potcar_spec).

(** Line 168. *)
Definition tag_of (E : F) : string :=
  "E_" +:+ format_4f E +:+ "_along_001".

Section Sweep.
(** The globals the function reads. *)
Variable api_key : string.
Variable common_incar_ref : nat.

(** Lines 166-176: one turn of [for E in E_mags]. *)
Definition field_case (structure : Structure F) (root : path)
    (kpoints : Kpoints) (c_hat : vec3 F) (E : F) (total_dirs : nat)
  : M' nat :=
  let evec := tolist (vmul c_hat E) in
  let tag := tag_of E in
  let wdir := root /: tag in
  let* _ := mkdir wdir true true in
  let* field_incar :=
    dict_spread "common_incar" common_incar_ref
      [("EFIELD_PEAD", PList evec); ("SKIP_EDOTP", PBool true)] in
  let* vset := MPStaticSet structure field_incar kpoints in
  let* _ := write_input vset (path_str wdir) true in
  ret (total_dirs + 1)%nat.

(** Line 165. *)
Fixpoint for_E (structure : Structure F) (root : path)
    (kpoints : Kpoints) (c_hat : vec3 F) (E_mags : list F)
    (total_dirs : nat) : M' nat :=
  match E_mags with
  | [] => ret total_dirs
  | E :: rest =>
      let* total_dirs' :=
        field_case structure root kpoints c_hat E total_dirs in
      for_E structure root kpoints c_hat rest total_dirs'
  end.

(** Lines 138-181: the statements under [try] after the structure is
    loaded, up to the update of [success_count]. *)
Definition make_inputs (mp_id : string) (structure : Structure F)
    (E_mags : list F) : M' unit :=
  let root := Path ("finite_field_sweep_" +:+ mp_id) in
  let* _ := mkdir root false true in
  let kpoints := gamma_automatic (8, 8, 8) in
  let zf_dir := root /: "E0_ref" in
  let* _ := mkdir zf_dir false true in
  let* zf_incar := dict_spread "common_incar" common_incar_ref [] in
  let* vset_zf := MPStaticSet structure zf_incar kpoints in
  let* _ := write_input vset_zf (path_str zf_dir) true in
  let c_hat := c_hat_of (matrix_2 (lattice structure)) in
  let total_dirs := 0%nat in
  let* total_dirs := for_E structure root kpoints c_hat E_mags
                       total_dirs in
  ret tt.

(** Lines 135-181: the statements under [try]. *)
Definition try_body (mp_id : string) (E_mags : list F) : M' unit :=
  let* structure := get_structure_from_mp mp_id api_key in
  make_inputs mp_id structure E_mags.

(** Lines 128-186: one turn of the loop over the materials;
    the counters are [(success_count, fail_count)]. *)
Definition iteration (mp_id : string) (E_mags : list F)
    (counts : nat * nat) : M' (nat * nat) :=
  try_except
    (let* _ := try_body mp_id E_mags in
     ret (counts.1 + 1, counts.2)%nat)
    (fun e => ret (counts.1, counts.2 + 1)%nat).

(** Line 128. *)
Fixpoint for_materials (materials : list string) (E_mags : list F)
    (counts : nat * nat) : M' (nat * nat) :=
  match materials with
  | [] => ret counts
  | mp_id :: rest =>
      let* counts' := iteration mp_id E_mags counts in
      for_materials rest E_mags counts'
  end.

(** Lines 108-191. The Python function returns [None]; the value here
    is the pair of counters it prints last, or [None] where it returns
    at line 119. *)
Definition create_field_sweep_for_all_materials (mp_ids : list string)
    (max_materials : Z) (E_mags : list F) : M' (option (nat * nat)) :=
  match mp_ids with
  | [] => ret None
  | _ =>
      let materials_to_process :=
        materials_to_process_of mp_ids max_materials in
      let* counts := for_materials materials_to_process E_mags
                       (0, 0)%nat in
      if (counts.1 + counts.2 =? 0)%nat then raise ZeroDivisionError
      else ret (Some counts)
  end.
End Sweep.

(** [name = <dict display>]: a new dictionary object. *)
Definition new_dict (d : dict F) : M' nat :=
  fun w =>
    {| out := Ok (length (heap w));
       log := [];
       fin := {| ext := ext w; heap := heap w ++ [d] |} |}.

(** The module, top to bottom. *)
Definition script (env : environ) : M' (option (nat * nat)) :=
  let* api_key := lift (load_api_key env) in
  let* f := external (EvOpen csv_file_path)
              (fun x => let '(f, x') := fs_open csv_file_path x in
                        (Ok f, x')) in
  let* mp_ids := lift (read_mp_ids_from_csv f) in
  let* common_incar_ref := new_dict common_incar in
  match mp_ids with
  | [] => ret None
  | _ =>
      create_field_sweep_for_all_materials api_key common_incar_ref
        mp_ids MAX_MATERIALS E_FIELD_MAGNITUDES
  end.
End Script.

(** ** A concrete outside world, in binary64 *)

Module Demo.

(** Cubic SrTiO3, a = 3.905. *)
Definition SrTiO3 : Structure float :=
  {| reduced_formula := "SrTiO3";
     lattice := {| matrix_0 := V3 3.905%float 0%float 0%float;
                   matrix_1 := V3 0%float 3.905%float 0%float;
                   matrix_2 := V3 0%float 0%float 3.905%float |} |}.

Definition MPRestError : exn := Exn "MPRestError" "material not found".

Definition PermissionError : exn := Exn "PermissionError" "Permission denied".

Definition OSError : exn := Exn "OSError" "No space left on device".

(** The outside world is the CSV file on disk. The database knows every
    id but ["mp-0"]; the directory [finite_field_sweep_mp-13] cannot be
    made and nothing can be written to [finite_field_sweep_mp-28/E0_ref];
    no other call fails, and pymatgen marks every dictionary it is
    handed. *)
Definition open_file (_ : string) (x : csv_file) : csv_file * csv_file :=
  (x, x).

Definition get_structure (_ mp_id : string) (x : csv_file)
  : outcome (Structure float) * csv_file :=
  if String.eqb mp_id "mp-0" then (Raise MPRestError, x)
  else (Ok SrTiO3, x).

Definition make_dir (p : path) (_ _ : bool) (x : csv_file)
  : outcome unit * csv_file :=
  if String.eqb (path_str p) "finite_field_sweep_mp-13"
  then (Raise PermissionError, x)
  else (Ok tt, x).

Definition static_set (_ : Structure float) (_ : dict float) (_ : Kpoints)
    (x : csv_file) : outcome unit * csv_file := (Ok tt, x).

Definition write_files (_ : Structure float) (_ : dict float)
    (_ : Kpoints) (dir : string) (_ : bool) (x : csv_file)
  : outcome unit * csv_file :=
  if String.eqb dir "finite_field_sweep_mp-28/E0_ref"
  then (Raise OSError, x)
  else (Ok tt, x).

Definition touch (_ : csv_file) (d : dict float) : dict float :=
  <["SEEN" := PBool true]> d.

Definition the_csv : csv_file :=
  Opened (RecRow ["formula"; "material_id"]
         (RecRow ["SrTiO3"; "mp-5229"]
         (RecRow ["unknown"; "mp-0"]
         (RecRow ["PbTiO3"; "mp-20459"] RecEnd)))).

Definition env : environ := {[ "PMG_MAPI_KEY" := "secret" ]}.

Definition world0 : World csv_file float :=
  {| ext := the_csv; heap := [] |}.

(** A state in which [common_incar] is the object at address 0. *)
Definition world1 : World csv_file float :=
  {| ext := the_csv; heap := [common_incar] |}.

#[global] Instance outside : Outside csv_file float := {|
  format_4f := Binary64.format_4f;
  fs_open := open_file;
  mp_get_structure_by_material_id := get_structure;
  fs_mkdir := make_dir;
  pmg_MPStaticSet := static_set;
  pmg_write_input := write_files;
  pmg_touch := touch
|}.

End Demo.


(** ** Reading the event log *)

Section Log.
Context {F : Type}.

(** The directories [mkdir] was called on, in order. *)
Definition made_dirs (l : list (event F)) : list path :=
  omap (fun e => match e with EvMkdir p _ _ => Some p | _ => None end) l.

(** The dictionaries passed as [user_incar_settings], in order. *)
Definition incar_settings (l : list (event F)) : list (dict F) :=
  omap (fun e => match e with EvStaticSet _ d _ => Some d | _ => None end)
       l.

(** The field vector a parameter dictionary applies, if any. *)
Definition applied_field (d : dict F) : option (list F) :=
  match d !! "EFIELD_PEAD" with
  | Some (PList v) => Some v
  | _ => None
  end.

Definition applied_fields (l : list (event F)) : list (list F) :=
  omap applied_field (incar_settings l).

(** The directories [write_input] was called on, in order. *)
Definition written_dirs (l : list (event F)) : list string :=
  omap (fun e => match e with EvWriteInput d _ => Some d | _ => None end)
       l.

(** The material ids the API was asked for, in order, and the keys it
    was asked with. *)
Definition requested_ids (l : list (event F)) : list string :=
  omap (fun e => match e with
                 | EvGetStructure _ mp_id => Some mp_id
                 | _ => None
                 end) l.

Definition keys_used (l : list (event F)) : list string :=
  omap (fun e => match e with
                 | EvGetStructure k _ => Some k
                 | _ => None
                 end) l.

Definition file_opens (l : list (event F)) : list string :=
  omap (fun e => match e with EvOpen p => Some p | _ => None end) l.
End Log.

(** The parameter dictionary of the field-strength case with field vector
    [evec], over the common dictionary [d]. *)
Definition field_incar_of {F} (d : dict F) (evec : list F) : dict F :=
  <["SKIP_EDOTP" := PBool true]> (<["EFIELD_PEAD" := PList evec]> d).

(** ** The list the reader is said to return *)

(** The value of a record in the column called [name]: the field under
    that header, if the record has one. *)
Definition column (fieldnames : list string) (name : string)
    (record : list string) : option string :=
  mjoin (DictReader.dict_zip fieldnames record !! name).

(** The stripped values of the column [material_id], in file order, over
    the records that have the column with a value that is not blank. *)
Definition stripped_ids (fieldnames : list string)
    (rows : list (list string)) : list string :=
  omap (fun record =>
          match column fieldnames "material_id" record with
          | Some v =>
              if PyStr.truthy (PyStr.strip v) then Some (PyStr.strip v)
              else None
          | None => None
          end) rows.

(** The stream of the records [rows] followed by [tl]. *)
Fixpoint rows_then (rows : list (list string)) (tl : records) : records :=
  match rows with
  | [] => tl
  | r :: rows' => RecRow r (rows_then rows' tl)
  end.

(** A CSV file with a record that stops before the [material_id] column:
<<
formula,material_id
SrTiO3,mp-5229
BaTiO3
PbTiO3,mp-20459
>> *)
Definition short_row_header : list string := ["formula"; "material_id"].
Definition short_row_rows : list (list string) :=
  [ ["SrTiO3"; "mp-5229"]; ["BaTiO3"]; ["PbTiO3"; "mp-20459"] ].
Definition short_row_csv : csv_file :=
  Opened (RecRow short_row_header (rows_then short_row_rows RecEnd)).

(** 257 distinct ids, [mp-1] to [mp-257]. *)
Definition ids_257 : list string :=
  map (fun n => "mp-" +:+ pretty n) (seq 1 257).

(** ** Vocabulary of the proofs *)

(** The sum of the squares of the components, in exact arithmetic. *)
Definition sq_sum (c : vec3 R) : R :=
  (vx c * vx c + vy c * vy c + vz c * vz c)%R.

(** A string that does not begin with a white-space character. *)
Definition starts_clean (s : string) : Prop :=
  match s with
  | EmptyString => True
  | String c _ => PyStr.isspace c = false
  end.

(** Calls other than the opening of the CSV file and the request to the
    Materials Project. *)
Definition local_call {F} (e : event F) : Prop :=
  match e with
  | EvGetStructure _ _ | EvOpen _ => False
  | _ => True
  end.

(** [quiet P m]: whatever happens, [m] only makes calls in [P]. *)
Definition quiet {Ext F A} (P : event F → Prop) (m : M Ext F A) : Prop :=
  ∀ w, Forall P (log (m w)).

Section Expected.
Context {Ext F : Type} `{Arith F} `{Outside Ext F}.

(** The calls of lines 138-155 for the structure [s], with [d] the
    common dictionary. *)
Definition zero_field_calls (root : path) (s : Structure F) (d : dict F)
  : list (event F) :=
  [ EvMkdir root false true;
    EvMkdir (root /: "E0_ref") false true;
    EvStaticSet s d (gamma_automatic (8, 8, 8));
    EvWriteInput (path_str (root /: "E0_ref")) true ].

(** The calls of lines 166-174 for the magnitude [E]. *)
Definition field_calls (root : path) (s : Structure F) (d : dict F)
    (c_hat : vec3 F) (E : F) : list (event F) :=
  [ EvMkdir (root /: tag_of E) true true;
    EvStaticSet s (field_incar_of d (tolist (vmul c_hat E)))
      (gamma_automatic (8, 8, 8));
    EvWriteInput (path_str (root /: tag_of E)) true ].

(** The calls of a turn that succeeds, after the structure is loaded. *)
Definition expected_calls (mp_id : string) (s : Structure F) (d : dict F)
    (E_mags : list F) : list (event F) :=
  let root := Path ("finite_field_sweep_" +:+ mp_id) in
  zero_field_calls root s d ++
  concat (map (field_calls root s d (c_hat_of (matrix_2 (lattice s))))
              E_mags).

(** A parameter dictionary built from the common dictionary [d] alone:
    [d] itself, or [d] with the two overrides of a field-strength
    case. *)
Definition from_common (d : dict F) (e : event F) : Prop :=
  match e with
  | EvStaticSet _ d' _ => d' = d ∨ ∃ evec, d' = field_incar_of d evec
  | _ => True
  end.

(** [keeps cref d Pre m Post]: run in a state where the object at
    [cref] is [d] and the heap satisfies [Pre], the computation [m] only
    passes dictionaries built from [d], leaves the object at [cref]
    as it is, and where it returns a value, [Post] holds of the value, of
    the calls made and of the heap. *)
Definition keeps {A} (cref : nat) (d : dict F)
    (Pre : list (dict F) → Prop) (m : M Ext F A)
    (Post : A → list (event F) → list (dict F) → Prop) : Prop :=
  ∀ w, heap w !! cref = Some d → Pre (heap w) →
    Forall (from_common d) (log (m w)) ∧
    heap (fin (m w)) !! cref = Some d ∧
    ∀ a, out (m w) = Ok a → Post a (log (m w)) (heap (fin (m w))).

(** For each turn of the loop over [materials], run one after the
    other, whether the statements under [try] ran to the end. *)
Fixpoint turn_results (api_key : string) (cref : nat)
    (materials : list string) (E_mags : list F) (w : World Ext F)
  : list bool :=
  match materials with
  | [] => []
  | mp_id :: rest =>
      let b := try_body api_key cref mp_id E_mags w in
      match out b with
      | Ok _ => true
      | Raise _ => false
      end :: turn_results api_key cref rest E_mags (fin b)
  end.
End Expected.


(** Every [write_input] of the calls [l] goes to a directory that an
    earlier [mkdir] of [l], or one of [made], has made. *)
Fixpoint written_after_made {F} (made : list string) (l : list (event F))
  : Prop :=
  match l with
  | [] => True
  | EvMkdir p _ _ :: l' => written_after_made (path_str p :: made) l'
  | EvWriteInput dir _ :: l' => dir ∈ made ∧ written_after_made made l'
  | _ :: l' => written_after_made made l'
  end.

(** [follows h0 Pre m calls Post]: run in a state whose heap begins with
    the objects [h0] and satisfies [Pre], the computation [m] leaves the
    objects [h0] as they are, makes an initial part of the calls [calls],
    and, where it returns a value, has made all of them and [Post] holds
    of the value and of the heap. *)
Definition follows {Ext F A} (h0 : list (dict F))
    (Pre : list (dict F) → Prop) (m : M Ext F A) (calls : list (event F))
    (Post : A → list (dict F) → Prop) : Prop :=
  ∀ w, h0 `prefix_of` heap w → Pre (heap w) →
    h0 `prefix_of` heap (fin (m w)) ∧
    log (m w) `prefix_of` calls ∧
    ∀ a, out (m w) = Ok a →
         log (m w) = calls ∧ Post a (heap (fin (m w))).

(** [succeeds cref d Pre m Post]: run in a state where the object at
    [cref] is [d] and the heap satisfies [Pre], the computation [m]
    returns a value, leaves the object at [cref] as it is, and [Post]
    holds of the value and of the heap. *)
Definition succeeds {Ext F A} (cref : nat) (d : dict F)
    (Pre : list (dict F) → Prop) (m : M Ext F A)
    (Post : A → list (dict F) → Prop) : Prop :=
  ∀ w, heap w !! cref = Some d → Pre (heap w) →
    ∃ a, out (m w) = Ok a ∧ heap (fin (m w)) !! cref = Some d ∧
         Post a (heap (fin (m w))).

(** The directories of the material [mp_id], in the order in which a
    successful turn makes them. *)
Definition sweep_dirs {F} (tag : F → string) (mp_id : string)
    (E_mags : list F) : list path :=
  let root := Path ("finite_field_sweep_" +:+ mp_id) in
  root :: (root /: "E0_ref") :: map (fun E => root /: tag E) E_mags.

(** An outside world in which no call fails: the database returns the
    same structure for every id. *)
Module Calm.

#[global] Instance outside : Outside unit float := {|
  format_4f := Binary64.format_4f;
  fs_open := fun _ x => (Opened RecEnd, x);
  mp_get_structure_by_material_id := fun _ _ x => (Ok Demo.SrTiO3, x);
  fs_mkdir := fun _ _ _ x => (Ok tt, x);
  pmg_MPStaticSet := fun _ _ _ x => (Ok tt, x);
  pmg_write_input := fun _ _ _ _ _ x => (Ok tt, x);
  pmg_touch := fun _ d => d
|}.

Definition world : World unit float :=
  {| ext := tt; heap := [common_incar] |}.

End Calm.

(** * Properties *)

(** ** Literals and formatting in binary64 *)

Example literal_0_003 : flit (F := PrimFloat.float) 3 (-3) = 0.003%float.
Proof. vm_compute. reflexivity. Qed.

Example literal_neg_0_001 : flit (F := PrimFloat.float) (-1) (-3) = (-0.001)%float.
Proof. vm_compute. reflexivity. Qed.

Example literal_1e_8 : flit (F := PrimFloat.float) 1 (-8) = 1e-8%float.
Proof. vm_compute. reflexivity. Qed.

Example format_neg_0_003 : Binary64.format_4f (-0.003)%float = "-0.0030".
Proof. vm_compute. reflexivity. Qed.

Example format_12_34565 : Binary64.format_4f 12.34565%float = "12.3456".
Proof. vm_compute. reflexivity. Qed.

Example format_0_00005 : Binary64.format_4f 0.00005%float = "0.0001".
Proof. vm_compute. reflexivity. Qed.

Example format_0_12345 : Binary64.format_4f 0.12345%float = "0.1235".
Proof. vm_compute. reflexivity. Qed.

Example read_three_rows :
  read_mp_ids_from_csv
    (Opened (RecRow ["formula"; "material_id"]
            (RecRow ["SrTiO3"; " mp-5229 "]
            (RecRow []
            (RecRow ["BaTiO3"; "   "]
            (RecRow ["PbTiO3"; "mp-20459"] RecEnd))))))
  = Ok ["mp-5229"; "mp-20459"].
Proof. vm_compute. reflexivity. Qed.

(** ** The CSV reader *)

Lemma try_read_ok (f : csv_file) (mp_ids : list string) :
  ∃ ids, try_read f mp_ids = (Ok tt, ids).
Proof.
  unfold try_read.
  destruct (with_open f mp_ids) as [[[]|e] ids]; [by eexists|].
  destruct (String.eqb _ _); by eexists.
Qed.

Lemma for_rows_error_tail (fieldnames : list string)
    (rows : list (list string)) (e : exn) (mp_ids : list string) :
  (for_rows fieldnames (rows_then rows (RecError e)) mp_ids).2 =
  (for_rows fieldnames (rows_then rows RecEnd) mp_ids).2.
Proof.
  revert mp_ids. induction rows as [|r rows IH]; intros mp_ids; [done|].
  destruct r as [|x r]; simpl; [apply IH|].
  destruct (row_body _ mp_ids) as [[u|e'] ids']; [apply IH | done].
Qed.

Lemma read_is_snd_with_open (f : csv_file) :
  read_mp_ids_from_csv f = Ok (with_open f []).2.
Proof.
  unfold read_mp_ids_from_csv, try_read.
  destruct (with_open f []) as [[[]|e] ids]; [done|].
  by destruct (String.eqb _ _).
Qed.

(** C9: [read_mp_ids_from_csv] returns a list whatever happens to the
    file: the empty list when [open] raises, and, when an error is raised
    after some records, the list that the records before the error give. *)
Theorem read_mp_ids_never_raises :
  (∀ f, ∃ ids, read_mp_ids_from_csv f = Ok ids) ∧
  (∀ e, read_mp_ids_from_csv (OpenFails e) = Ok []) ∧
  (∀ e, read_mp_ids_from_csv (Opened (RecError e)) = Ok []) ∧
  (∀ fieldnames rows e,
     read_mp_ids_from_csv
       (Opened (RecRow fieldnames (rows_then rows (RecError e)))) =
     read_mp_ids_from_csv
       (Opened (RecRow fieldnames (rows_then rows RecEnd)))).
Proof.
  split; [|split; [|split]].
  - intros f. rewrite read_is_snd_with_open. by eexists.
  - intros e. by rewrite read_is_snd_with_open.
  - intros e. by rewrite read_is_snd_with_open.
  - intros fieldnames rows e. rewrite !read_is_snd_with_open. simpl.
    f_equal. apply for_rows_error_tail.
Qed.

(** A record that stops before the [material_id] column gets [None]
    there, and [None.strip()] raises: the rows after it are not read. *)
Lemma short_row_stops_reading (fieldnames record : list string)
    (rest : records) (mp_ids : list string) :
  record ≠ [] →
  DictReader.make_row fieldnames record !! "material_id" = Some None →
  for_rows fieldnames (RecRow record rest) mp_ids =
  (Raise AttributeError_strip, mp_ids).
Proof.
  intros Hne Hrow. destruct record as [|x record]; [done|].
  simpl. unfold row_body. by rewrite Hrow.
Qed.

Lemma dict_zip_acc_cells (kvs : list (string * string))
    (d : DictReader.row) (k : string) :
  d !! k ≠ Some None →
  foldl (fun d kv => <[kv.1 := Some kv.2]> d) d kvs !! k ≠ Some None.
Proof.
  revert d. induction kvs as [|[k' v] kvs IH]; intros d Hd; [done|].
  simpl. apply IH. destruct (decide (k' = k)) as [->|Hne].
  - by rewrite lookup_insert_eq.
  - by rewrite lookup_insert_ne.
Qed.

Lemma dict_zip_cells (fieldnames record : list string) (k : string) :
  DictReader.dict_zip fieldnames record !! k ≠ Some None.
Proof. apply dict_zip_acc_cells. by rewrite lookup_empty. Qed.

Lemma for_rows_rectangular (fieldnames : list string)
    (rows : list (list string)) (mp_ids : list string) :
  Forall (fun r => r = [] ∨ (length fieldnames ≤ length r)%nat) rows →
  for_rows fieldnames (rows_then rows RecEnd) mp_ids =
  (Ok tt, mp_ids ++ stripped_ids fieldnames rows).
Proof.
  intros Hrows. revert mp_ids.
  induction Hrows as [|r rows Hr _ IH]; intros mp_ids.
  - by rewrite app_nil_r.
  - destruct r as [|x r].
    + simpl. rewrite IH. unfold stripped_ids, column. simpl.
      unfold DictReader.dict_zip. rewrite zip_with_nil_r. simpl.
      by rewrite lookup_empty.
    + assert (Hmk : DictReader.make_row fieldnames (x :: r) =
                    DictReader.dict_zip fieldnames (x :: r)).
      { unfold DictReader.make_row. destruct Hr as [Hr|Hr]; [done|].
        destruct (Nat.ltb_spec (length (x :: r)) (length fieldnames));
          [lia|done]. }
      cbn [rows_then for_rows]. rewrite Hmk. unfold row_body.
      unfold stripped_ids at 1. cbn [omap list_omap]. unfold column.
      pose proof (dict_zip_cells fieldnames (x :: r) "material_id") as Hc.
      destruct (DictReader.dict_zip fieldnames (x :: r) !! "material_id")
        as [[v|]|] eqn:Hlk; simpl.
      * destruct (PyStr.truthy (PyStr.strip v)); rewrite IH.
        -- by rewrite <- app_assoc.
        -- done.
      * done.
      * apply IH.
Qed.

(** On a file whose records all reach the end of the header (or are
    empty), the reader returns the stripped, non-blank values of the
    [material_id] column in file order. *)
Lemma read_rectangular (fieldnames : list string)
    (rows : list (list string)) :
  Forall (fun r => r = [] ∨ (length fieldnames ≤ length r)%nat) rows →
  read_mp_ids_from_csv (Opened (RecRow fieldnames (rows_then rows RecEnd)))
  = Ok (stripped_ids fieldnames rows).
Proof.
  intros Hrows. rewrite read_is_snd_with_open. simpl.
  by rewrite for_rows_rectangular.
Qed.

(** C7: on the file [short_row_csv] the reader returns only the id that
    precedes the short record, while the stripped non-blank values of the
    column are two; the id after the short record is lost. *)
Theorem short_row_loses_later_ids :
  read_mp_ids_from_csv short_row_csv = Ok ["mp-5229"] ∧
  stripped_ids short_row_header short_row_rows = ["mp-5229"; "mp-20459"].
Proof. split; vm_compute; reflexivity. Qed.

(** ** The unit vector and the field vector *)

Section Exact.
Local Open Scope R_scope.

Lemma norm_exact (c : vec3 R) : norm c = sqrt (sq_sum c).
Proof. reflexivity. Qed.

Lemma sq_sum_nonneg (c : vec3 R) : 0 <= sq_sum c.
Proof. unfold sq_sum. nra. Qed.

Lemma sq_sum_pos (c : vec3 R) : c ≠ V3 0 0 0 → 0 < sq_sum c.
Proof.
  destruct c as [x y z]. unfold sq_sum. simpl. intros Hc.
  destruct (Req_dec x 0) as [->|Hx]; [|nra].
  destruct (Req_dec y 0) as [->|Hy]; [|nra].
  destruct (Req_dec z 0) as [->|Hz]; [done|nra].
Qed.

Lemma norm_pos (c : vec3 R) : c ≠ V3 0 0 0 → 0 < norm c.
Proof. intros Hc. rewrite norm_exact. by apply sqrt_lt_R0, sq_sum_pos. Qed.

Lemma norm_sq (c : vec3 R) : norm c * norm c = sq_sum c.
Proof. rewrite norm_exact. apply sqrt_sqrt, sq_sum_nonneg. Qed.

Lemma sq_sum_vmul (c : vec3 R) (k : R) :
  sq_sum (vmul c k) = (k * k) * sq_sum c.
Proof. destruct c. unfold sq_sum. simpl. ring. Qed.

Lemma norm_vmul (c : vec3 R) (k : R) : norm (vmul c k) = Rabs k * norm c.
Proof.
  rewrite !norm_exact, sq_sum_vmul.
  rewrite sqrt_mult_alt by nra.
  f_equal. fold (Rsqr k). apply sqrt_Rsqr_abs.
Qed.

Lemma vdiv_vmul (c : vec3 R) (n : R) : vdiv c n = vmul c (/ n).
Proof. reflexivity. Qed.

Lemma norm_c_hat (c : vec3 R) : c ≠ V3 0 0 0 → norm (c_hat_of c) = 1.
Proof.
  intros Hc. pose proof (norm_pos c Hc) as Hn.
  unfold c_hat_of. rewrite vdiv_vmul, norm_vmul.
  rewrite Rabs_right; [field; lra|].
  apply Rle_ge. left. by apply Rinv_0_lt_compat.
Qed.

Lemma evec_along (c : vec3 R) (E : R) :
  evec_of c E = vmul c (E / norm c).
Proof.
  destruct c as [x y z]. unfold evec_of, c_hat_of, vmul, vdiv. simpl.
  f_equal; unfold Rdiv; ring.
Qed.
End Exact.




(** ** The sweep: what is called, in all outcomes *)

Section Calls.
Context {Ext F : Type} `{Arith F} `{Outside Ext F}.

Lemma bind_ok {A B} (m : M Ext F A) (k : A → M Ext F B)
    (w : World Ext F) (b : B) :
  out (bind m k w) = Ok b →
  ∃ a, out (m w) = Ok a ∧ out (k a (fin (m w))) = Ok b ∧
       log (bind m k w) = log (m w) ++ log (k a (fin (m w))) ∧
       fin (bind m k w) = fin (k a (fin (m w))).
Proof.
  unfold bind. destruct (out (m w)) as [a|e]; simpl; [|discriminate].
  intros Hk. exists a. done.
Qed.

Lemma quiet_ret {A} P (a : A) : quiet P (ret a : M Ext F A).
Proof. intros w. constructor. Qed.

Lemma quiet_raise {A} P (e : exn) : quiet P (raise e : M Ext F A).
Proof. intros w. constructor. Qed.

Lemma quiet_bind {A B} P (m : M Ext F A) (k : A → M Ext F B) :
  quiet P m → (∀ a, quiet P (k a)) → quiet P (bind m k).
Proof.
  intros Hm Hk w. unfold bind. specialize (Hm w).
  destruct (out (m w)) as [a|e]; simpl; [|done].
  apply Forall_app. split; [done | apply Hk].
Qed.

Lemma quiet_external {A} (P : event F → Prop) ev
    (call : Ext → outcome A * Ext) :
  P ev → quiet P (external ev call).
Proof.
  intros Hev w. unfold external. destruct (call (ext w)). simpl.
  by repeat constructor.
Qed.

Lemma quiet_dict_spread P name src items :
  quiet P (dict_spread name src items : M Ext F nat).
Proof.
  intros w. unfold dict_spread. destruct (heap w !! src); constructor.
Qed.

Lemma quiet_with_dict {A} (P : event F → Prop) ref ev
    (call : dict F → Ext → outcome A * Ext) :
  (∀ d, P (ev d)) → quiet P (with_dict ref ev call).
Proof.
  intros Hev w. unfold with_dict. destruct (heap w !! ref) as [d|].
  - destruct (call d (ext w)). simpl. by repeat constructor.
  - constructor.
Qed.

Lemma local_calls_no_request (l : list (event F)) :
  Forall local_call l → requested_ids l = [] ∧ keys_used l = [].
Proof.
  induction 1 as [|e l He _ [IH1 IH2]]; [done|].
  unfold requested_ids, keys_used in *. destruct e; simpl in *; done.
Qed.

Lemma quiet_mkdir p a b : quiet local_call (mkdir p a b).
Proof. by apply quiet_external. Qed.

Lemma quiet_MPStaticSet s ref k : quiet local_call (MPStaticSet s ref k).
Proof.
  apply quiet_bind; [by apply quiet_with_dict | intros; apply quiet_ret].
Qed.

Lemma quiet_write_input v dir b : quiet local_call (write_input v dir b).
Proof. by apply quiet_with_dict. Qed.

Variables (api_key : string) (cref : nat).

Lemma quiet_field_case s root k c_hat E n :
  quiet local_call (field_case cref s root k c_hat E n).
Proof.
  unfold field_case.
  apply quiet_bind; [apply quiet_mkdir | intros _].
  apply quiet_bind; [apply quiet_dict_spread | intros ref].
  apply quiet_bind; [apply quiet_MPStaticSet | intros v].
  apply quiet_bind; [apply quiet_write_input | intros _].
  apply quiet_ret.
Qed.

Lemma quiet_for_E s root k c_hat E_mags n :
  quiet local_call (for_E cref s root k c_hat E_mags n).
Proof.
  revert n. induction E_mags as [|E E_mags IH]; intros n; simpl.
  - apply quiet_ret.
  - apply quiet_bind; [apply quiet_field_case | intros n'; apply IH].
Qed.

Lemma quiet_make_inputs mp_id s E_mags :
  quiet local_call (make_inputs cref mp_id s E_mags).
Proof.
  unfold make_inputs.
  apply quiet_bind; [apply quiet_mkdir | intros _].
  apply quiet_bind; [apply quiet_mkdir | intros _].
  apply quiet_bind; [apply quiet_dict_spread | intros ref].
  apply quiet_bind; [apply quiet_MPStaticSet | intros v].
  apply quiet_bind; [apply quiet_write_input | intros _].
  apply quiet_bind; [apply quiet_for_E | intros _].
  apply quiet_ret.
Qed.

(** The first call of a turn is the request for the structure; no other
    call of the turn is a request. *)
Lemma try_body_log (mp_id : string) (E_mags : list F) (w : World Ext F) :
  ∃ rest, log (try_body api_key cref mp_id E_mags w) =
          EvGetStructure api_key mp_id :: rest ∧
          Forall local_call rest.
Proof.
  unfold try_body, bind, get_structure_from_mp, external.
  destruct (mp_get_structure_by_material_id api_key mp_id (ext w))
    as [[s|e] x]; simpl; [|by exists []].
  eexists; split; [reflexivity|].
  apply quiet_make_inputs.
Qed.

(** The [try] statement of a turn: same calls and same final state as
    its body, and never an exception. *)
Lemma iteration_unfold (mp_id : string) (E_mags : list F)
    (counts : nat * nat) (w : World Ext F) :
  let b := try_body api_key cref mp_id E_mags w in
  let r := iteration api_key cref mp_id E_mags counts w in
  out r = match out b with
          | Ok _ => Ok (counts.1 + 1, counts.2)%nat
          | Raise _ => Ok (counts.1, counts.2 + 1)%nat
          end ∧
  log r = log b ∧ fin r = fin b.
Proof.
  unfold iteration, try_except, bind, ret. simpl.
  destruct (out (try_body api_key cref mp_id E_mags w)); simpl;
    by rewrite app_nil_r.
Qed.

Lemma for_materials_cons (mp_id : string) (rest : list string)
    (E_mags : list F) (counts : nat * nat) (w : World Ext F) :
  let r1 := iteration api_key cref mp_id E_mags counts w in
  ∃ counts',
    out r1 = Ok counts' ∧
    let r2 := for_materials api_key cref rest E_mags counts' (fin r1) in
    out (for_materials api_key cref (mp_id :: rest) E_mags counts w) =
      out r2 ∧
    log (for_materials api_key cref (mp_id :: rest) E_mags counts w) =
      log r1 ++ log r2 ∧
    fin (for_materials api_key cref (mp_id :: rest) E_mags counts w) =
      fin r2.
Proof.
  destruct (iteration_unfold mp_id E_mags counts w) as (Hout & _ & _).
  cbn [for_materials]. unfold bind.
  destruct (out (try_body api_key cref mp_id E_mags w)); rewrite Hout;
    eexists; done.
Qed.

Lemma for_materials_calls (materials : list string) (E_mags : list F)
    (counts : nat * nat) (w : World Ext F) :
  let r := for_materials api_key cref materials E_mags counts w in
  (∃ s f, out r = Ok (s, f) ∧ counts.1 ≤ s ∧ counts.2 ≤ f ∧
          s + f = counts.1 + counts.2 + length materials)%nat ∧
  requested_ids (log r) = materials ∧
  keys_used (log r) = map (fun _ => api_key) materials ∧
  file_opens (log r) = [].
Proof.
  revert counts w. induction materials as [|mp_id rest IH];
    intros counts w.
  - simpl. split; [|done]. exists counts.1, counts.2.
    destruct counts. simpl. repeat split; lia.
  - destruct (for_materials_cons mp_id rest E_mags counts w)
      as (counts' & Hc & Hout & Hlog & Hfin). cbv zeta in *.
    destruct (iteration_unfold mp_id E_mags counts w)
      as (Hi & Hil & Hif). cbv zeta in *.
    destruct (try_body_log mp_id E_mags w) as (tl & Htl & Hloc).
    destruct (local_calls_no_request tl Hloc) as [Hr Hk].
    specialize (IH counts'
      (fin (iteration api_key cref mp_id E_mags counts w))).
    cbv zeta in IH. destruct IH as ((s & f & Ho & Hs & Hf & Hsum)
      & Hreq & Hkeys & Hop).
    rewrite Hout, Hlog, Hil, Htl.
    assert (Hcounts : (counts'.1 + counts'.2 = counts.1 + counts.2 + 1
                       ∧ counts.1 ≤ counts'.1 ∧ counts.2 ≤ counts'.2)%nat).
    { rewrite Hi in Hc.
      destruct (out (try_body api_key cref mp_id E_mags w));
        injection Hc as <-; simpl; lia. }
    split; [|split; [|split]].
    + exists s, f. simpl. repeat split; [done|lia..].
    + unfold requested_ids in *. simpl. rewrite omap_app, Hr, Hreq. done.
    + unfold keys_used in *. simpl. rewrite omap_app, Hk, Hkeys. done.
    + unfold file_opens in *. simpl. rewrite omap_app, Hop.
      rewrite app_nil_r. clear -Hloc.
      induction Hloc as [|e l He _ IH]; [done|].
      destruct e; simpl in *; done.
Qed.
End Calls.

(** ** The sweep: what is passed, and what is left untouched *)

Section Frame.
Context {Ext F : Type} `{Arith F} `{Outside Ext F}.
Variables (cref : nat) (d0 : dict F).

Local Abbreviation keeps' := (keeps (Ext := Ext) cref d0).

(** Sequencing: the condition on the value and the calls of the first
    part is handed over as a fact, the condition on the heap as the
    precondition of the second part. *)
Lemma keeps_bind {A B} Pre (m : M Ext F A) (Q : A → list (event F) → Prop)
    (R : A → list (dict F) → Prop) (k : A → M Ext F B) Post :
  keeps' Pre m (fun a l h => Q a l ∧ R a h) →
  (∀ a l1, Q a l1 →
     keeps' (R a) (k a) (fun b l2 h => Post b (l1 ++ l2) h)) →
  keeps' Pre (bind m k) Post.
Proof.
  intros Hm Hk w Hinv Hpre.
  destruct (Hm w Hinv Hpre) as (Hl & Hi & Hpost).
  unfold bind. destruct (out (m w)) as [a|e]; simpl.
  - destruct (Hpost a eq_refl) as [HQ HR].
    destruct (Hk a (log (m w)) HQ (fin (m w)) Hi HR)
      as (Hl2 & Hi2 & Hp2).
    split; [by apply Forall_app|]. split; [done|].
    intros b Hb. by apply Hp2.
  - done.
Qed.

Lemma keeps_post {A} Pre (m : M Ext F A) (Post Post' : _ → _ → _ → Prop) :
  keeps' Pre m Post →
  (∀ a l h, Post a l h → Post' a l h) →
  keeps' Pre m Post'.
Proof.
  intros Hm Himp w Hinv Hpre. destruct (Hm w Hinv Hpre) as (? & ? & Hp).
  split; [done|]. split; [done|]. intros a Ha. by apply Himp, Hp.
Qed.

Lemma keeps_ret {A} Pre (a : A) :
  keeps' Pre (ret a) (fun a' l h => (a' = a ∧ l = []) ∧ Pre h).
Proof.
  intros w Hinv Hpre. simpl. split; [constructor|]. split; [done|].
  by intros a' [= <-].
Qed.

Lemma keeps_external {A} Pre ev (call : Ext → outcome A * Ext) :
  from_common d0 ev →
  keeps' Pre (external ev call) (fun _ l h => l = [ev] ∧ Pre h).
Proof.
  intros Hev w Hinv Hpre. unfold external.
  destruct (call (ext w)) as [o x]. simpl.
  split; [by repeat constructor|]. done.
Qed.

Lemma keeps_mkdir Pre p a b :
  keeps' Pre (mkdir p a b) (fun _ l h => l = [EvMkdir p a b] ∧ Pre h).
Proof. by apply keeps_external. Qed.

Lemma keeps_dict_spread Pre name items :
  keeps' Pre (dict_spread name cref items)
    (fun ref l h => (l = [] ∧ ref ≠ cref) ∧
                    h !! ref = Some (dict_update d0 items)).
Proof.
  intros w Hinv _. unfold dict_spread. rewrite Hinv. simpl.
  pose proof (lookup_lt_Some _ _ _ Hinv) as Hlt.
  split; [constructor|]. split; [by rewrite lookup_app_l|].
  intros ref [= <-]. split; [split; [done|lia]|].
  by apply list_lookup_middle.
Qed.

Lemma keeps_with_dict {A} ref (ev : dict F → event F)
    (call : dict F → Ext → outcome A * Ext) (d : dict F) :
  ref ≠ cref →
  from_common d0 (ev d) →
  keeps' (fun h => h !! ref = Some d) (with_dict ref ev call)
    (fun _ l h => l = [ev d] ∧ is_Some (h !! ref)).
Proof.
  intros Hne Hev w Hinv Hd. unfold with_dict. rewrite Hd.
  destruct (call d (ext w)) as [o x]. simpl.
  split; [by repeat constructor|].
  split; [by rewrite list_lookup_insert_ne|].
  intros _ _. split; [done|].
  rewrite list_lookup_insert_eq; [by eexists|].
  by eapply lookup_lt_Some.
Qed.

Lemma keeps_MPStaticSet s ref k (d : dict F) :
  ref ≠ cref →
  d = d0 ∨ (∃ evec, d = field_incar_of d0 evec) →
  keeps' (fun h => h !! ref = Some d) (MPStaticSet s ref k)
    (fun v l h => (l = [EvStaticSet s d k] ∧ vs_incar v = ref ∧
                   vs_structure v = s ∧ vs_kpoints v = k) ∧
                  is_Some (h !! ref)).
Proof.
  intros Hne Hd. unfold MPStaticSet.
  eapply keeps_bind.
  { apply (keeps_with_dict ref (fun d => EvStaticSet s d k)); done. }
  intros _ l1 ->. cbv beta.
  eapply keeps_post; [apply keeps_ret|].
  intros v l h [[-> ->] Hh]. done.
Qed.

Lemma keeps_write_input v dir b :
  vs_incar v ≠ cref →
  keeps' (fun h => is_Some (h !! vs_incar v)) (write_input v dir b)
    (fun _ l _ => l = [EvWriteInput dir b] ∧ True).
Proof.
  intros Hne w Hinv [d Hd]. unfold write_input.
  destruct (keeps_with_dict (vs_incar v)
              (fun _ => EvWriteInput dir b)
              (fun d => pmg_write_input (vs_structure v) d
                          (vs_kpoints v) dir b) d Hne I w Hinv Hd)
    as (Hl & Hi & Hp).
  split; [done|]. split; [done|].
  intros u Hu. by destruct (Hp u Hu).
Qed.

Lemma keeps_field_case s root c_hat E n :
  keeps' (fun _ => True)
    (field_case cref s root (gamma_automatic (8, 8, 8)) c_hat E n)
    (fun n' l _ => l = field_calls root s d0 c_hat E ∧ n' = S n).
Proof.
  unfold field_case.
  eapply keeps_bind; [apply (keeps_mkdir (fun _ => True))|]. intros _ l1 ->. cbv beta.
  eapply keeps_bind; [apply (keeps_dict_spread (fun _ => True))|].
  intros ref l2 [-> Hne]. cbv beta.
  eapply keeps_bind.
  { apply keeps_MPStaticSet; [done|]. right. by eexists. }
  intros v l3 (-> & Hv & _ & _). cbv beta. subst ref.
  eapply keeps_bind; [by apply keeps_write_input|].
  intros _ l4 ->. cbv beta.
  eapply keeps_post; [apply (keeps_ret (fun _ => True))|].
  intros n' l h [[-> ->] _]. split; [reflexivity | lia].
Qed.

Lemma keeps_for_E s root c_hat E_mags n :
  keeps' (fun _ => True)
    (for_E cref s root (gamma_automatic (8, 8, 8)) c_hat E_mags n)
    (fun n' l _ => l = concat (map (field_calls root s d0 c_hat) E_mags)
                   ∧ n' = (n + length E_mags)%nat).
Proof.
  revert n. induction E_mags as [|E E_mags IH]; intros n; simpl.
  - eapply keeps_post; [apply (keeps_ret (fun _ => True))|].
    intros n' l h [[-> ->] _]. split; [done | lia].
  - eapply keeps_bind.
    { eapply keeps_post; [apply keeps_field_case|].
      intros n' l h Hp. split; [exact Hp | exact I]. }
    intros n' l1 [-> ->]. cbv beta.
    eapply keeps_post; [apply IH|].
    intros n'' l h [-> ->]. split; [done | lia].
Qed.

Lemma keeps_make_inputs mp_id s E_mags :
  keeps' (fun _ => True) (make_inputs cref mp_id s E_mags)
    (fun _ l _ => l = expected_calls mp_id s d0 E_mags).
Proof.
  unfold make_inputs.
  eapply keeps_bind; [apply (keeps_mkdir (fun _ => True))|]. intros _ l1 ->. cbv beta.
  eapply keeps_bind; [apply (keeps_mkdir (fun _ => True))|]. intros _ l2 ->. cbv beta.
  eapply keeps_bind; [apply (keeps_dict_spread (fun _ => True))|].
  intros ref l3 [-> Hne]. cbv beta.
  eapply keeps_bind.
  { apply keeps_MPStaticSet; [done|]. by left. }
  intros v l4 (-> & Hv & _ & _). cbv beta. subst ref.
  eapply keeps_bind; [by apply keeps_write_input|].
  intros _ l5 ->. cbv beta.
  eapply keeps_bind.
  { eapply keeps_post; [apply keeps_for_E|].
    intros n' l h Hp. split; [exact Hp | exact I]. }
  intros n' l6 [-> ->]. cbv beta.
  eapply keeps_post; [apply (keeps_ret (fun _ => True))|].
  intros u l h [[-> ->] _]. rewrite app_nil_r. reflexivity.
Qed.
End Frame.

(** ** A turn of the loop that succeeds *)

Section Turn.
Context {Ext F : Type} `{Arith F} `{Outside Ext F}.
Variables (api_key : string) (cref : nat).

Lemma external_heap {A} ev (call : Ext → outcome A * Ext)
    (w : World Ext F) :
  heap (fin (external ev call w)) = heap w.
Proof. unfold external. by destruct (call (ext w)). Qed.

Lemma dict_spread_ok name items (w : World Ext F) (ref : nat) :
  out (dict_spread name cref items w) = Ok ref →
  is_Some (heap w !! cref).
Proof.
  unfold dict_spread. destruct (heap w !! cref); [by eexists|].
  discriminate.
Qed.

Lemma make_inputs_needs_common (mp_id : string) (s : Structure F)
    (E_mags : list F) (w : World Ext F) :
  out (make_inputs cref mp_id s E_mags w) = Ok tt →
  is_Some (heap w !! cref).
Proof.
  unfold make_inputs. intros Hok.
  apply bind_ok in Hok as (_ & _ & Hok & _ & _).
  apply bind_ok in Hok as (_ & _ & Hok & _ & _).
  apply bind_ok in Hok as (ref & Href & _).
  apply dict_spread_ok in Href.
  unfold mkdir in Href. by rewrite !external_heap in Href.
Qed.

Lemma try_body_needs_common (mp_id : string) (E_mags : list F)
    (w : World Ext F) :
  out (try_body api_key cref mp_id E_mags w) = Ok tt →
  is_Some (heap w !! cref).
Proof.
  unfold try_body. intros Hok.
  apply bind_ok in Hok as (s & _ & Hok & _ & _).
  apply make_inputs_needs_common in Hok.
  unfold get_structure_from_mp in Hok. by rewrite external_heap in Hok.
Qed.

Lemma try_body_success (d0 : dict F) (mp_id : string) (E_mags : list F)
    (w : World Ext F) :
  heap w !! cref = Some d0 →
  out (try_body api_key cref mp_id E_mags w) = Ok tt →
  ∃ s, (mp_get_structure_by_material_id api_key mp_id (ext w)).1 = Ok s ∧
       log (try_body api_key cref mp_id E_mags w) =
       EvGetStructure api_key mp_id :: expected_calls mp_id s d0 E_mags.
Proof.
  intros Hd. unfold try_body, bind, get_structure_from_mp, external.
  destruct (mp_get_structure_by_material_id api_key mp_id (ext w))
    as [[s|e] x]; simpl; [|discriminate].
  intros Hok. exists s. split; [done|]. f_equal.
  destruct (keeps_make_inputs cref d0 mp_id s E_mags
              {| ext := x; heap := heap w |} Hd I) as (_ & _ & Hp).
  destruct (out (make_inputs cref mp_id s E_mags _)) as [[]|]; [|done].
  by apply (Hp tt).
Qed.

Lemma made_dirs_field_calls root s (d : dict F) c_hat E_mags :
  made_dirs (concat (map (field_calls root s d c_hat) E_mags)) =
  map (fun E => root /: tag_of E) E_mags.
Proof.
  induction E_mags as [|E E_mags IH]; [done|].
  simpl. unfold made_dirs in *. simpl. by rewrite IH.
Qed.

Lemma written_dirs_field_calls root s (d : dict F) c_hat E_mags :
  written_dirs (concat (map (field_calls root s d c_hat) E_mags)) =
  map (fun E => path_str (root /: tag_of E)) E_mags.
Proof.
  induction E_mags as [|E E_mags IH]; [done|].
  simpl. unfold written_dirs in *. simpl. by rewrite IH.
Qed.

Lemma incar_settings_field_calls root s (d : dict F) c_hat E_mags :
  incar_settings (concat (map (field_calls root s d c_hat) E_mags)) =
  map (fun E => field_incar_of d (tolist (vmul c_hat E))) E_mags.
Proof.
  induction E_mags as [|E E_mags IH]; [done|].
  simpl. unfold incar_settings in *. simpl. by rewrite IH.
Qed.

Lemma applied_field_override (d : dict F) (evec : list F) :
  applied_field (field_incar_of d evec) = Some evec.
Proof.
  unfold applied_field, field_incar_of.
  rewrite lookup_insert_ne by done. by rewrite lookup_insert_eq.
Qed.

Lemma tag_not_zero_field (root : path) (E : F) :
  root /: tag_of E ≠ root /: "E0_ref".
Proof.
  unfold joinpath, tag_of. intros Heq.
  apply app_inv_head in Heq. discriminate.
Qed.
End Turn.

Lemma common_incar_no_field {F} `{Arith F} :
  common_incar (F := F) !! "EFIELD_PEAD" = None ∧
  common_incar (F := F) !! "SKIP_EDOTP" = None.
Proof. split; vm_compute; reflexivity. Qed.

Lemma common_incar_size {F} `{Arith F} : size (common_incar (F := F)) = 16%nat.
Proof. vm_compute. reflexivity. Qed.

Lemma common_incar_values {F} `{Arith F} :
  Forall (fun kv => common_incar (F := F) !! kv.1 = Some kv.2)
         common_incar_items.
Proof. repeat constructor. Qed.



Example demo_directories :
  map path_str
    (made_dirs (log (try_body "secret" 0%nat "mp-5229" E_FIELD_MAGNITUDES
                       Demo.world1))) =
  [ "finite_field_sweep_mp-5229";
    "finite_field_sweep_mp-5229/E0_ref";
    "finite_field_sweep_mp-5229/E_-0.0030_along_001";
    "finite_field_sweep_mp-5229/E_-0.0010_along_001";
    "finite_field_sweep_mp-5229/E_0.0010_along_001";
    "finite_field_sweep_mp-5229/E_0.0030_along_001" ].
Proof. vm_compute. reflexivity. Qed.

(** In binary64 the four magnitudes of line 195 give four different
    directory names. *)
Example configured_tags_distinct :
  map (tag_of (F := float)) E_FIELD_MAGNITUDES =
    [ "E_-0.0030_along_001"; "E_-0.0010_along_001";
      "E_0.0010_along_001"; "E_0.0030_along_001" ] ∧
  NoDup (map (tag_of (F := float)) E_FIELD_MAGNITUDES).
Proof.
  split; [vm_compute; reflexivity|].
  apply (bool_decide_unpack _). vm_compute. exact I.
Qed.

(** C2: in a turn that succeeds, the dictionary passed for the zero-field
    calculation is the common dictionary, which has no [EFIELD_PEAD] key
    and holds its sixteen fixed items; the dictionary passed for the
    magnitude [E] is the common dictionary with [EFIELD_PEAD] set to the
    computed field vector and [SKIP_EDOTP] set to [True], two keys more,
    and agrees with the common dictionary on every other key. *)
Theorem incar_overrides {Ext F : Type} `{Arith F} `{Outside Ext F}
    (api_key : string) (cref : nat) (mp_id : string) (E_mags : list F)
    (w : World Ext F) :
  heap w !! cref = Some common_incar →
  out (try_body api_key cref mp_id E_mags w) = Ok tt →
  ∃ structure,
    (mp_get_structure_by_material_id api_key mp_id (ext w)).1
      = Ok structure ∧
    incar_settings (log (try_body api_key cref mp_id E_mags w)) =
      common_incar ::
      map (fun E =>
             <["SKIP_EDOTP" := PBool true]>
               (<["EFIELD_PEAD" :=
                    PList (tolist (evec_of (matrix_2 (lattice structure))
                                           E))]> common_incar))
          E_mags ∧
    common_incar (F := F) !! "EFIELD_PEAD" = None ∧
    size (common_incar (F := F)) = 16%nat ∧
    Forall (fun kv => common_incar (F := F) !! kv.1 = Some kv.2)
           common_incar_items ∧
    ∀ evec : list F,
      let field_incar :=
        <["SKIP_EDOTP" := PBool true]>
          (<["EFIELD_PEAD" := PList evec]> common_incar) in
      field_incar !! "EFIELD_PEAD" = Some (PList evec) ∧
      field_incar !! "SKIP_EDOTP" = Some (PBool true) ∧
      size field_incar = 18%nat ∧
      ∀ k, k ≠ "EFIELD_PEAD" → k ≠ "SKIP_EDOTP" →
           field_incar !! k = common_incar !! k.
Proof.
  intros Hd Hok.
  destruct (try_body_success api_key cref _ mp_id E_mags w Hd Hok)
    as (s & Hs & Hlog).
  destruct (common_incar_no_field (F := F)) as [Hno1 Hno2].
  exists s. split; [done|]. split.
  { rewrite Hlog. unfold expected_calls, zero_field_calls, incar_settings.
    cbn [omap list_omap app]. f_equal.
    apply incar_settings_field_calls. }
  split; [done|]. split; [apply common_incar_size|].
  split; [apply common_incar_values|].
  intros evec field_incar. subst field_incar.
  split; [by rewrite lookup_insert_ne, lookup_insert_eq|].
  split; [by rewrite lookup_insert_eq|]. split.
  - rewrite map_size_insert_None.
    + rewrite map_size_insert_None by done. by rewrite common_incar_size.
    + by rewrite lookup_insert_ne.
  - intros k Hk1 Hk2. by rewrite !lookup_insert_ne.
Qed.

Lemma incar_overrides_witness :
  heap Demo.world1 !! 0%nat = Some common_incar ∧
  out (try_body "secret" 0%nat "mp-20459" E_FIELD_MAGNITUDES Demo.world1)
    = Ok tt ∧
  ∃ structure,
    (mp_get_structure_by_material_id "secret" "mp-20459"
       (ext Demo.world1)).1 = Ok structure ∧
    incar_settings
      (log (try_body "secret" 0%nat "mp-20459" E_FIELD_MAGNITUDES
              Demo.world1)) =
      common_incar ::
      map (fun E =>
             <["SKIP_EDOTP" := PBool true]>
               (<["EFIELD_PEAD" :=
                    PList (tolist (evec_of (matrix_2 (lattice structure))
                                           E))]> common_incar))
          E_FIELD_MAGNITUDES.
Proof.
  assert (H1 : heap Demo.world1 !! 0%nat = Some common_incar)
    by reflexivity.
  assert (H2 : out (try_body "secret" 0%nat "mp-20459" E_FIELD_MAGNITUDES
                      Demo.world1) = Ok tt)
    by (vm_compute; reflexivity).
  split; [exact H1|]. split; [exact H2|].
  destruct (incar_overrides "secret" 0%nat "mp-20459" E_FIELD_MAGNITUDES
              Demo.world1 H1 H2) as (s & Hs & Hset & _).
  exists s. split; [exact Hs | exact Hset].
Defined.

(** C5: in a turn that succeeds, [write_input] is called once for the
    zero-field directory and once per entry of [E_mags]; with the four
    magnitudes of line 195 that is five calls. *)
Theorem write_input_calls {Ext F : Type} `{Arith F} `{Outside Ext F}
    (api_key : string) (cref : nat) (mp_id : string) (E_mags : list F)
    (w : World Ext F) :
  out (try_body api_key cref mp_id E_mags w) = Ok tt →
  length (written_dirs (log (try_body api_key cref mp_id E_mags w))) =
    (1 + length E_mags)%nat ∧
  (1 + length (E_FIELD_MAGNITUDES (F := F)) = 5)%nat.
Proof.
  intros Hok. split; [|done].
  destruct (try_body_needs_common api_key cref mp_id E_mags w Hok)
    as [d0 Hd].
  destruct (try_body_success api_key cref d0 mp_id E_mags w Hd Hok)
    as (s & _ & ->).
  unfold expected_calls, zero_field_calls, written_dirs.
  cbn [omap list_omap app length]. f_equal.
  etrans; [apply f_equal, written_dirs_field_calls|].
  by rewrite length_map.
Qed.

Lemma write_input_calls_witness :
  out (try_body "secret" 0%nat "mp-5229" E_FIELD_MAGNITUDES Demo.world1)
    = Ok tt ∧
  length (written_dirs
            (log (try_body "secret" 0%nat "mp-5229" E_FIELD_MAGNITUDES
                    Demo.world1))) = 5%nat.
Proof.
  assert (H2 : out (try_body "secret" 0%nat "mp-5229" E_FIELD_MAGNITUDES
                      Demo.world1) = Ok tt)
    by (vm_compute; reflexivity).
  split; [exact H2|].
  destruct (write_input_calls "secret" 0%nat "mp-5229" E_FIELD_MAGNITUDES
              Demo.world1 H2) as [Hn _].
  exact Hn.
Defined.

(** ** The loop over the materials *)

Section Loop.
Context {Ext F : Type} `{Arith F} `{Outside Ext F}.
Variables (api_key : string) (cref : nat).

Lemma try_body_keeps (d0 : dict F) (mp_id : string) (E_mags : list F)
    (w : World Ext F) :
  heap w !! cref = Some d0 →
  Forall (from_common d0) (log (try_body api_key cref mp_id E_mags w)) ∧
  heap (fin (try_body api_key cref mp_id E_mags w)) !! cref = Some d0.
Proof.
  intros Hd.
  assert (Hk : keeps cref d0 (fun _ => True)
                 (try_body api_key cref mp_id E_mags)
                 (fun _ _ _ => True)).
  { unfold try_body, get_structure_from_mp.
    eapply keeps_bind.
    - apply (keeps_external cref d0 (fun _ => True)
               (EvGetStructure api_key mp_id)). exact I.
    - intros s l1 _. cbv beta.
      eapply keeps_post; [apply keeps_make_inputs|]. done. }
  destruct (Hk w Hd I) as (Hl & Hi & _). done.
Qed.

Lemma for_materials_keeps (d0 : dict F) (materials : list string)
    (E_mags : list F) (counts : nat * nat) (w : World Ext F) :
  heap w !! cref = Some d0 →
  let r := for_materials api_key cref materials E_mags counts w in
  Forall (from_common d0) (log r) ∧ heap (fin r) !! cref = Some d0.
Proof.
  revert counts w. induction materials as [|mp_id rest IH];
    intros counts w Hd.
  - simpl. split; [constructor | done].
  - destruct (for_materials_cons api_key cref mp_id rest E_mags counts w)
      as (counts' & _ & _ & Hlog & Hfin). cbv zeta in *.
    destruct (iteration_unfold api_key cref mp_id E_mags counts w)
      as (_ & Hil & Hif). cbv zeta in *.
    destruct (try_body_keeps d0 mp_id E_mags w Hd) as [Hl Hi].
    rewrite <- Hif in Hi. rewrite <- Hil in Hl.
    destruct (IH counts' _ Hi) as [Hl2 Hi2].
    rewrite Hlog, Hfin. split; [by apply Forall_app | done].
Qed.

(** Lines 117-191: the calls and the final state of the function are
    those of its loop over [mp_ids[:max_materials]]. *)
Lemma create_unfold (mp_ids : list string) (max_materials : Z)
    (E_mags : list F) (w : World Ext F) :
  let r := create_field_sweep_for_all_materials api_key cref mp_ids
             max_materials E_mags w in
  let l := for_materials api_key cref
             (materials_to_process_of mp_ids max_materials) E_mags
             (0, 0)%nat w in
  log r = log l ∧ fin r = fin l.
Proof.
  destruct mp_ids as [|mp_id rest].
  - unfold materials_to_process_of, slice_to.
    destruct (max_materials <? 0); by rewrite take_nil.
  - cbv zeta. unfold create_field_sweep_for_all_materials.
    set (l := for_materials _ _ _ _ _ w).
    unfold bind. fold l.
    destruct (out l) as [counts|e]; simpl; [|done].
    destruct (_ =? _)%nat; simpl; by rewrite app_nil_r.
Qed.
End Loop.

Lemma from_common_settings {F} (d : dict F) (l : list (event F)) :
  Forall (from_common d) l →
  Forall (fun d' => d' = d ∨ ∃ evec, d' = field_incar_of d evec)
         (incar_settings l).
Proof.
  induction 1 as [|e l He _ IH]; [constructor|].
  unfold incar_settings in *. destruct e; simpl; try done.
  by constructor.
Qed.

(** C10: the function leaves the object [common_incar] as it found it,
    with its sixteen items, whatever the materials, the magnitudes and the
    outcomes of the calls, pymatgen changing the dictionaries it is handed
    included; and every dictionary passed as [user_incar_settings] is the
    common dictionary or the common dictionary with the two overrides of
    one field-strength case, so nothing else carries over from one
    directory to another. *)
Theorem common_incar_not_mutated {Ext F : Type} `{Arith F}
    `{Outside Ext F} (api_key : string) (cref : nat)
    (mp_ids : list string) (max_materials : Z) (E_mags : list F)
    (w : World Ext F) :
  heap w !! cref = Some common_incar →
  let r := create_field_sweep_for_all_materials api_key cref mp_ids
             max_materials E_mags w in
  heap (fin r) !! cref = Some common_incar ∧
  size (common_incar (F := F)) = 16%nat ∧
  Forall (fun kv => common_incar (F := F) !! kv.1 = Some kv.2)
         common_incar_items ∧
  Forall (fun d => d = common_incar ∨
                   ∃ evec, d = <["SKIP_EDOTP" := PBool true]>
                                 (<["EFIELD_PEAD" := PList evec]>
                                    common_incar))
         (incar_settings (log r)).
Proof.
  intros Hd r. subst r.
  destruct (create_unfold api_key cref mp_ids max_materials E_mags w)
    as [-> ->].
  destruct (for_materials_keeps api_key cref common_incar
              (materials_to_process_of mp_ids max_materials) E_mags
              (0, 0)%nat w Hd) as [Hl Hi].
  split; [done|]. split; [apply common_incar_size|].
  split; [apply common_incar_values|].
  by apply from_common_settings.
Qed.

Lemma common_incar_not_mutated_witness :
  heap Demo.world1 !! 0%nat = Some common_incar ∧
  heap (fin (create_field_sweep_for_all_materials "secret" 0%nat
               ["mp-5229"; "mp-0"; "mp-20459"] MAX_MATERIALS
               E_FIELD_MAGNITUDES Demo.world1)) !! 0%nat
    = Some common_incar.
Proof.
  assert (H1 : heap Demo.world1 !! 0%nat = Some common_incar)
    by reflexivity.
  split; [exact H1|].
  destruct (common_incar_not_mutated "secret" 0%nat
              ["mp-5229"; "mp-0"; "mp-20459"] MAX_MATERIALS
              E_FIELD_MAGNITUDES Demo.world1 H1) as [Hkept _].
  exact Hkept.
Defined.

(** In the concrete world pymatgen does change the dictionaries it is
    handed: the copies carry its mark, the common dictionary does not. *)
Example demo_copies_marked :
  let h := heap (fin (create_field_sweep_for_all_materials "secret" 0%nat
                        ["mp-5229"] MAX_MATERIALS E_FIELD_MAGNITUDES
                        Demo.world1)) in
  length h = 6%nat ∧
  (λ d : dict float, d !! "SEEN") <$> h =
    [None; Some (PBool true); Some (PBool true); Some (PBool true);
     Some (PBool true); Some (PBool true)].
Proof. vm_compute. split; reflexivity. Qed.

Section Counting.
Context {Ext F : Type} `{Arith F} `{Outside Ext F}.
Variables (api_key : string) (cref : nat).

Lemma for_materials_counts (materials : list string) (E_mags : list F)
    (counts : nat * nat) (w : World Ext F) :
  let results := turn_results api_key cref materials E_mags w in
  out (for_materials api_key cref materials E_mags counts w) =
  Ok (counts.1 + length (filter (eq true) results),
      counts.2 + length (filter (eq false) results))%nat.
Proof.
  revert counts w. induction materials as [|mp_id rest IH];
    intros [s f] w.
  - simpl. by rewrite !Nat.add_0_r.
  - destruct (for_materials_cons api_key cref mp_id rest E_mags (s, f) w)
      as (counts' & Hc & Hout & _ & _). cbv zeta in *.
    destruct (iteration_unfold api_key cref mp_id E_mags (s, f) w)
      as (Hi & _ & Hif). cbv zeta in *.
    rewrite Hout, IH, Hif. cbn [turn_results]. rewrite Hi in Hc.
    destruct (out (try_body api_key cref mp_id E_mags w));
      injection Hc as <-; cbn [fst snd].
    + rewrite (filter_cons_True (eq true)) by done.
      rewrite (filter_cons_False (eq false)) by done.
      cbn [length]. f_equal. f_equal; lia.
    + rewrite (filter_cons_False (eq true)) by done.
      rewrite (filter_cons_True (eq false)) by done.
      cbn [length]. f_equal. f_equal; lia.
Qed.

Lemma turn_results_length (materials : list string) (E_mags : list F)
    (w : World Ext F) :
  length (turn_results api_key cref materials E_mags w) =
  length materials.
Proof.
  revert w. induction materials as [|mp_id rest IH]; intros w; [done|].
  simpl. by rewrite IH.
Qed.

Lemma try_body_api_error (mp_id : string) (E_mags : list F)
    (w : World Ext F) (e : exn) :
  (mp_get_structure_by_material_id api_key mp_id (ext w)).1 = Raise e →
  out (try_body api_key cref mp_id E_mags w) = Raise e.
Proof.
  unfold try_body, bind, get_structure_from_mp, external.
  destruct (mp_get_structure_by_material_id api_key mp_id (ext w))
    as [[s|e'] x]; simpl; [discriminate|]. by intros [= ->].
Qed.

Lemma bind_run {A B} (m : M Ext F A) (k : A → M Ext F B)
    (w : World Ext F) (r : res Ext F A) :
  m w = r →
  out (bind m k w) = match out r with
                     | Ok a => out (k a (fin r))
                     | Raise e => Raise e
                     end.
Proof. intros <-. unfold bind. by destruct (out (m w)). Qed.

Lemma external_run {A} ev (call : Ext → outcome A * Ext)
    (w : World Ext F) (o : outcome A) (x : Ext) :
  call (ext w) = (o, x) →
  external ev call w =
  {| out := o; log := [ev]; fin := {| ext := x; heap := heap w |} |}.
Proof. intros Hc. unfold external. by rewrite Hc. Qed.

Lemma try_body_mkdir_error (mp_id : string) (E_mags : list F)
    (w : World Ext F) (s : Structure F) (x : Ext) (e : exn) :
  mp_get_structure_by_material_id api_key mp_id (ext w) = (Ok s, x) →
  (fs_mkdir (Path ("finite_field_sweep_" +:+ mp_id)) false true x).1
    = Raise e →
  out (try_body api_key cref mp_id E_mags w) = Raise e.
Proof.
  intros Hs He. unfold try_body, get_structure_from_mp.
  rewrite (bind_run _ _ _ _ (external_run _ _ _ _ _ Hs)). cbn [out fin].
  unfold make_inputs, mkdir.
  destruct (fs_mkdir _ false true x) as [o x1] eqn:Hm. simpl in He.
  subst o.
  by rewrite (bind_run _ _ _ _
                (external_run _ _ {| ext := x; heap := heap w |} _ _ Hm)).
Qed.

Lemma try_body_write_error (mp_id : string) (E_mags : list F)
    (w : World Ext F) (s : Structure F) (d : dict F) (x x1 x2 x3 : Ext)
    (e : exn) :
  let root := Path ("finite_field_sweep_" +:+ mp_id) in
  let kpoints := gamma_automatic (8, 8, 8) in
  mp_get_structure_by_material_id api_key mp_id (ext w) = (Ok s, x) →
  fs_mkdir root false true x = (Ok tt, x1) →
  fs_mkdir (root /: "E0_ref") false true x1 = (Ok tt, x2) →
  heap w !! cref = Some d →
  pmg_MPStaticSet s d kpoints x2 = (Ok tt, x3) →
  (pmg_write_input s (pmg_touch x3 d) kpoints
     (path_str (root /: "E0_ref")) true x3).1 = Raise e →
  out (try_body api_key cref mp_id E_mags w) = Raise e.
Proof.
  intros root kpoints Hs Hm1 Hm2 Hd Hset He.
  unfold try_body, get_structure_from_mp.
  rewrite (bind_run _ _ _ _ (external_run _ _ _ _ _ Hs)). cbn [out fin].
  unfold make_inputs, mkdir. fold root.
  rewrite (bind_run _ _ _ _
             (external_run _ _ {| ext := x; heap := heap w |} _ _ Hm1)).
  cbn [out fin].
  rewrite (bind_run _ _ _ _
             (external_run _ _ {| ext := x1; heap := heap w |} _ _ Hm2)).
  cbn [out fin].
  erewrite bind_run; [|unfold dict_spread; cbn [heap ext]; rewrite Hd;
                       reflexivity].
  cbn [out fin dict_update foldl].
  pose proof (lookup_lt_Some _ _ _ Hd) as Hlt.
  erewrite bind_run.
  2:{ unfold MPStaticSet, bind, with_dict. cbn [heap ext].
      rewrite (list_lookup_middle (heap w) [] d (length (heap w)) eq_refl).
      fold kpoints. rewrite Hset. reflexivity. }
  cbn [out fin ret log].
  unfold write_input, with_dict. cbn [heap ext vs_incar vs_structure
                                       vs_kpoints].
  erewrite bind_run.
  2:{ cbv beta. cbn [heap ext].
      rewrite list_lookup_insert_eq by (rewrite length_app; simpl; lia).
      reflexivity. }
  fold kpoints root.
  destruct (pmg_write_input s (pmg_touch x3 d) kpoints
              (path_str (root /: "E0_ref")) true x3) as [o x4].
  simpl in He. by subst o.
Qed.
End Counting.

(** C6: a turn of the loop never raises: where the statements under [try]
    raise (because the API request, the creation of the root directory or
    the writing of the zero-field inputs raises, for instance), the turn
    ends with [fail_count] one higher, and where they run to the end, with
    [success_count] one higher; the loop then goes on with the next id
    from the state the turn left. The loop requests every id of its list, in order, and ends
    with the counters raised by the number of turns that succeeded and
    the number that failed, which add up to the length of the list. *)
Theorem failures_are_counted {Ext F : Type} `{Arith F} `{Outside Ext F}
    (api_key : string) (cref : nat) (E_mags : list F) :
  (∀ mp_id counts (w : World Ext F),
     let b := try_body api_key cref mp_id E_mags w in
     let r := iteration api_key cref mp_id E_mags counts w in
     out r = match out b with
             | Ok _ => Ok (counts.1 + 1, counts.2)%nat
             | Raise _ => Ok (counts.1, counts.2 + 1)%nat
             end ∧
     log r = log b ∧ fin r = fin b) ∧
  (∀ mp_id counts (w : World Ext F) e,
     (mp_get_structure_by_material_id api_key mp_id (ext w)).1 = Raise e →
     out (iteration api_key cref mp_id E_mags counts w) =
     Ok (counts.1, counts.2 + 1)%nat) ∧
  (∀ mp_id counts (w : World Ext F) s x e,
     mp_get_structure_by_material_id api_key mp_id (ext w) = (Ok s, x) →
     (fs_mkdir (Path ("finite_field_sweep_" +:+ mp_id)) false true x).1
       = Raise e →
     out (iteration api_key cref mp_id E_mags counts w) =
     Ok (counts.1, counts.2 + 1)%nat) ∧
  (∀ mp_id counts (w : World Ext F) s d x x1 x2 x3 e,
     let root := Path ("finite_field_sweep_" +:+ mp_id) in
     let kpoints := gamma_automatic (8, 8, 8) in
     mp_get_structure_by_material_id api_key mp_id (ext w) = (Ok s, x) →
     fs_mkdir root false true x = (Ok tt, x1) →
     fs_mkdir (root /: "E0_ref") false true x1 = (Ok tt, x2) →
     heap w !! cref = Some d →
     pmg_MPStaticSet s d kpoints x2 = (Ok tt, x3) →
     (pmg_write_input s (pmg_touch x3 d) kpoints
        (path_str (root /: "E0_ref")) true x3).1 = Raise e →
     out (iteration api_key cref mp_id E_mags counts w) =
     Ok (counts.1, counts.2 + 1)%nat) ∧
  (∀ mp_id rest counts (w : World Ext F),
     let r1 := iteration api_key cref mp_id E_mags counts w in
     ∃ counts',
       out r1 = Ok counts' ∧
       let r2 := for_materials api_key cref rest E_mags counts' (fin r1) in
       let r := for_materials api_key cref (mp_id :: rest) E_mags counts w in
       out r = out r2 ∧ log r = log r1 ++ log r2 ∧ fin r = fin r2) ∧
  (∀ materials counts (w : World Ext F),
     let r := for_materials api_key cref materials E_mags counts w in
     let results := turn_results api_key cref materials E_mags w in
     out r = Ok (counts.1 + length (filter (eq true) results),
                 counts.2 + length (filter (eq false) results))%nat ∧
     (length (filter (eq true) results) +
      length (filter (eq false) results) = length materials)%nat ∧
     requested_ids (log r) = materials).
Proof.
  split; [|split; [|split; [|split; [|split]]]].
  - intros mp_id counts w. apply iteration_unfold.
  - intros mp_id counts w e He.
    destruct (iteration_unfold api_key cref mp_id E_mags counts w)
      as (-> & _ & _).
    by rewrite (try_body_api_error api_key cref mp_id E_mags w e He).
  - intros mp_id counts w s x e Hs He.
    destruct (iteration_unfold api_key cref mp_id E_mags counts w)
      as (-> & _ & _).
    by rewrite (try_body_mkdir_error api_key cref mp_id E_mags w s x e
                  Hs He).
  - intros mp_id counts w s d x x1 x2 x3 e root kpoints Hs H1 H2 Hd H3 He.
    destruct (iteration_unfold api_key cref mp_id E_mags counts w)
      as (-> & _ & _).
    by rewrite (try_body_write_error api_key cref mp_id E_mags w s d
                  x x1 x2 x3 e Hs H1 H2 Hd H3 He).
  - intros mp_id rest counts w. apply for_materials_cons.
  - intros materials counts w. cbv zeta.
    split; [apply for_materials_counts|]. split.
    + rewrite <- (turn_results_length api_key cref materials E_mags w).
      generalize (turn_results api_key cref materials E_mags w).
      intros l. induction l as [|[] l IH]; [done| |].
      * rewrite filter_cons_True, filter_cons_False by done. simpl. lia.
      * rewrite filter_cons_False, filter_cons_True by done. simpl. lia.
    + apply for_materials_calls.
Qed.

Lemma failures_are_counted_witness :
  (mp_get_structure_by_material_id "secret" "mp-0" (ext Demo.world1)).1
    = Raise Demo.MPRestError ∧
  out (iteration "secret" 0%nat "mp-0" E_FIELD_MAGNITUDES (1, 0)%nat
         Demo.world1) = Ok (1, 1)%nat ∧
  (fs_mkdir (Path "finite_field_sweep_mp-13") false true Demo.the_csv).1
    = Raise Demo.PermissionError ∧
  out (iteration "secret" 0%nat "mp-13" E_FIELD_MAGNITUDES (1, 1)%nat
         Demo.world1) = Ok (1, 2)%nat ∧
  (pmg_write_input Demo.SrTiO3 (pmg_touch Demo.the_csv common_incar)
     (gamma_automatic (8, 8, 8)) "finite_field_sweep_mp-28/E0_ref" true
     Demo.the_csv).1 = Raise Demo.OSError ∧
  out (iteration "secret" 0%nat "mp-28" E_FIELD_MAGNITUDES (1, 2)%nat
         Demo.world1) = Ok (1, 3)%nat ∧
  out (for_materials "secret" 0%nat
         ["mp-5229"; "mp-0"; "mp-13"; "mp-28"; "mp-20459"]
         E_FIELD_MAGNITUDES (0, 0)%nat Demo.world1) = Ok (2, 3)%nat.
Proof.
  assert (H1 : (mp_get_structure_by_material_id "secret" "mp-0"
                  (ext Demo.world1)).1 = Raise Demo.MPRestError)
    by reflexivity.
  assert (H2 : (fs_mkdir (Path "finite_field_sweep_mp-13") false true
                  Demo.the_csv).1 = Raise Demo.PermissionError)
    by reflexivity.
  assert (H3 : (pmg_write_input Demo.SrTiO3
                  (pmg_touch Demo.the_csv common_incar)
                  (gamma_automatic (8, 8, 8))
                  "finite_field_sweep_mp-28/E0_ref" true Demo.the_csv).1
               = Raise Demo.OSError)
    by reflexivity.
  destruct (failures_are_counted (Ext := csv_file) "secret" 0%nat
              E_FIELD_MAGNITUDES)
    as (_ & Hfail & Hmk & Hwr & _ & Hloop).
  split; [exact H1|]. split.
  { exact (Hfail "mp-0" (1, 0)%nat Demo.world1 Demo.MPRestError H1). }
  split; [exact H2|]. split.
  { exact (Hmk "mp-13" (1, 1)%nat Demo.world1 Demo.SrTiO3 Demo.the_csv
             Demo.PermissionError eq_refl H2). }
  split; [exact H3|]. split.
  { exact (Hwr "mp-28" (1, 2)%nat Demo.world1 Demo.SrTiO3 common_incar
             Demo.the_csv Demo.the_csv Demo.the_csv Demo.the_csv
             Demo.OSError eq_refl eq_refl eq_refl eq_refl eq_refl H3). }
  destruct (Hloop ["mp-5229"; "mp-0"; "mp-13"; "mp-28"; "mp-20459"]
              (0, 0)%nat Demo.world1) as (Hout & _ & _).
  etrans; [exact Hout|]. vm_compute. reflexivity.
Defined.

(** ** The materials that are processed *)

Lemma materials_to_process_256 (mp_ids : list string) :
  materials_to_process_of mp_ids MAX_MATERIALS = take 256 mp_ids.
Proof. reflexivity. Qed.

(** C4 (as amended): with [MAX_MATERIALS = 256] the function requests, in
    order, the first 256 ids of the list it is given and no other; that is
    the whole list exactly when the list has at most 256 ids. *)
Theorem loop_covers_first_256 {Ext F : Type} `{Arith F} `{Outside Ext F}
    (api_key : string) (cref : nat) (mp_ids : list string)
    (E_mags : list F) (w : World Ext F) :
  requested_ids
    (log (create_field_sweep_for_all_materials api_key cref mp_ids
            MAX_MATERIALS E_mags w)) = take 256 mp_ids ∧
  (take 256 mp_ids = mp_ids ↔ (length mp_ids ≤ 256)%nat).
Proof.
  split.
  - destruct (create_unfold api_key cref mp_ids MAX_MATERIALS E_mags w)
      as [-> _].
    rewrite materials_to_process_256. apply for_materials_calls.
  - split.
    + intros Heq. rewrite <- Heq, length_take. lia.
    + apply take_ge.
Qed.

(** C4 (as stated): of the 257 ids [mp-1] to [mp-257] the function
    requests the first 256; [mp-257] is in the list and is not
    requested. *)
Lemma id_257_not_processed :
  let requested :=
    requested_ids
      (log (create_field_sweep_for_all_materials "secret" 0%nat ids_257
              MAX_MATERIALS E_FIELD_MAGNITUDES Demo.world1)) in
  length ids_257 = 257%nat ∧
  length requested = 256%nat ∧
  requested ≠ ids_257 ∧
  "mp-257" ∈ ids_257 ∧
  "mp-257" ∉ requested.
Proof.
  cbv zeta.
  assert (Hreq : requested_ids
            (log (create_field_sweep_for_all_materials "secret" 0%nat
                    ids_257 MAX_MATERIALS E_FIELD_MAGNITUDES Demo.world1))
          = take 256 ids_257).
  { vm_compute. reflexivity. }
  rewrite Hreq.
  split; [vm_compute; reflexivity|].
  split; [vm_compute; reflexivity|].
  split.
  { intros Heq. apply (f_equal length) in Heq. vm_compute in Heq.
    discriminate. }
  split.
  - apply (bool_decide_unpack _). vm_compute. exact I.
  - apply (bool_decide_eq_false_1 ("mp-257" ∈ take 256 ids_257)).
    vm_compute. reflexivity.
Qed.

(** ** Start-up *)

Section Startup.
Context {Ext F : Type} `{Arith F} `{Outside Ext F}.

Lemma bind_log {A B} (m : M Ext F A) (k : A → M Ext F B)
    (w : World Ext F) :
  log (bind m k w) =
  log (m w) ++ match out (m w) with
               | Ok a => log (k a (fin (m w)))
               | Raise _ => []
               end.
Proof.
  unfold bind. destruct (out (m w)); simpl; [done|].
  by rewrite app_nil_r.
Qed.

Lemma script_without_key (env : environ) (w : World Ext F) (e : exn) :
  load_api_key env = Raise e →
  script env w = {| out := Raise e; log := []; fin := w |}.
Proof. intros He. unfold script. rewrite He. reflexivity. Qed.

Lemma script_log (env : environ) (w : World Ext F) (k : string) :
  load_api_key env = Ok k →
  ∃ mp_ids cref w1,
    log (script env w) =
    EvOpen csv_file_path ::
    log (for_materials k cref (take 256 mp_ids) E_FIELD_MAGNITUDES
           (0, 0)%nat w1).
Proof.
  intros Hk. unfold script. rewrite Hk. cbn [lift].
  rewrite bind_log. cbn [ret out log fin app].
  rewrite bind_log. unfold external.
  destruct (fs_open csv_file_path (ext w)) as [f x]. cbn [out log fin].
  rewrite bind_log, read_is_snd_with_open. cbn [lift ret out log fin app].
  set (mp_ids := (with_open f []).2).
  rewrite bind_log. unfold new_dict. cbn [out log fin app ext heap].
  set (w1 := {| ext := x; heap := heap w ++ [common_incar] |}).
  exists mp_ids, (length (heap w)), w1. f_equal.
  destruct mp_ids as [|i l] eqn:Hids; [done|].
  destruct (create_unfold k (length (heap w)) (i :: l) MAX_MATERIALS
              E_FIELD_MAGNITUDES w1) as [-> _].
  reflexivity.
Qed.

Lemma script_calls (env : environ) (w : World Ext F) (k : string) :
  load_api_key env = Ok k →
  ∃ mp_ids,
    file_opens (log (script env w)) = [csv_file_path] ∧
    keys_used (log (script env w)) = map (fun _ => k) (take 256 mp_ids) ∧
    requested_ids (log (script env w)) = take 256 mp_ids.
Proof.
  intros Hk. destruct (script_log env w k Hk) as (mp_ids & cref & w1 & ->).
  exists mp_ids.
  destruct (for_materials_calls k cref (take 256 mp_ids)
              E_FIELD_MAGNITUDES (0, 0)%nat w1)
    as (_ & Hreq & Hkeys & Hopen).
  unfold file_opens, keys_used, requested_ids in *.
  cbn [omap list_omap]. by rewrite Hopen, Hkeys, Hreq.
Qed.
End Startup.

(** C8: with neither [MP_API_KEY] nor [PMG_MAPI_KEY] set to a non-empty
    value the script raises the [RuntimeError] with no call made and the
    state untouched: the CSV file is not opened and nothing is written.
    Otherwise the key is the value of [MP_API_KEY] where that is
    non-empty and the value of [PMG_MAPI_KEY] where it is not, the CSV
    file is opened once, and every request to the API carries this
    key. *)
Theorem api_key_at_startup {Ext F : Type} `{Arith F} `{Outside Ext F}
    (env : environ) (w : World Ext F) :
  (truthy_opt (getenv env "MP_API_KEY") = false →
   truthy_opt (getenv env "PMG_MAPI_KEY") = false →
   script env w =
     {| out := Raise RuntimeError_no_key; log := []; fin := w |}) ∧
  (∀ k, getenv env "MP_API_KEY" = Some k → k ≠ "" →
        load_api_key env = Ok k) ∧
  (∀ k, truthy_opt (getenv env "MP_API_KEY") = false →
        getenv env "PMG_MAPI_KEY" = Some k → k ≠ "" →
        load_api_key env = Ok k) ∧
  (∀ k, load_api_key env = Ok k →
        file_opens (log (script env w)) = [csv_file_path] ∧
        Forall (eq k) (keys_used (log (script env w)))).
Proof.
  split; [|split; [|split]].
  - intros H1 H2. apply script_without_key.
    unfold load_api_key, api_key_of, py_or. rewrite H1, H2. done.
  - intros k Hk Hne. unfold load_api_key, api_key_of, py_or.
    rewrite Hk. destruct k; done.
  - intros k H1 Hk Hne. unfold load_api_key, api_key_of, py_or.
    rewrite H1, Hk. destruct k; done.
  - intros k Hk. destruct (script_calls env w k Hk)
      as (mp_ids & Hopen & Hkeys & _).
    split; [done|]. rewrite Hkeys. apply Forall_forall.
    intros k' Hin. apply list_elem_of_fmap in Hin as (? & -> & _). done.
Qed.

Lemma api_key_at_startup_witness :
  (truthy_opt (getenv {[ "MP_API_KEY" := "" ]} "MP_API_KEY") = false ∧
   truthy_opt (getenv {[ "MP_API_KEY" := "" ]} "PMG_MAPI_KEY") = false ∧
   script {[ "MP_API_KEY" := "" ]} Demo.world0 =
     {| out := Raise RuntimeError_no_key; log := [];
        fin := Demo.world0 |}) ∧
  (truthy_opt (getenv Demo.env "MP_API_KEY") = false ∧
   getenv Demo.env "PMG_MAPI_KEY" = Some "secret" ∧
   load_api_key Demo.env = Ok "secret" ∧
   Forall (eq "secret") (keys_used (log (script Demo.env Demo.world0)))) ∧
  (getenv {[ "MP_API_KEY" := "a"; "PMG_MAPI_KEY" := "b" ]} "MP_API_KEY"
     = Some "a" ∧
   load_api_key {[ "MP_API_KEY" := "a"; "PMG_MAPI_KEY" := "b" ]} = Ok "a").
Proof.
  split; [|split].
  - assert (H1 : truthy_opt (getenv {[ "MP_API_KEY" := "" ]} "MP_API_KEY")
                 = false) by reflexivity.
    assert (H2 : truthy_opt (getenv {[ "MP_API_KEY" := "" ]} "PMG_MAPI_KEY")
                 = false) by reflexivity.
    split; [exact H1|]. split; [exact H2|].
    exact (proj1 (api_key_at_startup {[ "MP_API_KEY" := "" ]} Demo.world0)
             H1 H2).
  - assert (H1 : truthy_opt (getenv Demo.env "MP_API_KEY") = false)
      by reflexivity.
    assert (H2 : getenv Demo.env "PMG_MAPI_KEY" = Some "secret")
      by reflexivity.
    assert (H3 : "secret" ≠ "") by discriminate.
    destruct (api_key_at_startup Demo.env Demo.world0)
      as (_ & _ & Hpmg & Hused).
    pose proof (Hpmg "secret" H1 H2 H3) as Hkey.
    split; [exact H1|]. split; [exact H2|]. split; [exact Hkey|].
    exact (proj2 (Hused "secret" Hkey)).
  - assert (H1 : getenv {[ "MP_API_KEY" := "a"; "PMG_MAPI_KEY" := "b" ]}
                   "MP_API_KEY" = Some "a") by reflexivity.
    assert (H3 : "a" ≠ "") by discriminate.
    split; [exact H1|].
    exact (proj1 (proj2 (api_key_at_startup (Ext := csv_file)
                           {[ "MP_API_KEY" := "a"; "PMG_MAPI_KEY" := "b" ]}
                           Demo.world0)) "a" H1 H3).
Defined.

(** * Further properties *)

(** ** The limit on the number of materials *)

(** X1: the materials that are processed are an initial part of the list
    of ids; for a limit [n >= 0] there are [min(len, n)] of them, and a
    negative limit does not lift the limit but leaves out the last [-n]
    ids; none is left exactly when the list is empty, the limit is zero,
    or the limit is negative and at least as large as the list. *)
Theorem materials_to_process_bounds (mp_ids : list string) (n : Z) :
  let materials := materials_to_process_of mp_ids n in
  materials `prefix_of` mp_ids ∧
  (0 ≤ n → length materials = (length mp_ids `min` Z.to_nat n)%nat) ∧
  (n < 0 → length materials = (length mp_ids - Z.to_nat (- n))%nat) ∧
  (materials = [] ↔
   mp_ids = [] ∨ n = 0 ∨ n ≤ - Z.of_nat (length mp_ids)).
Proof.
  cbv zeta. unfold materials_to_process_of, slice_to.
  assert (Hnil : ∀ k, take k mp_ids = [] ↔ mp_ids = [] ∨ k = 0%nat).
  { intros k. destruct mp_ids as [|i l].
    - rewrite take_nil. split; auto.
    - destruct k; simpl; split; auto; try done.
      intros [?|?]; done. }
  destruct (Z.ltb_spec n 0) as [Hn|Hn].
  - split; [apply prefix_take|]. split; [lia|]. split.
    + intros _. rewrite length_take. lia.
    + rewrite Hnil. split.
      * intros [?|Hk]; [auto|]. right. right. lia.
      * intros [?|[?|Hk]]; [auto|lia|]. right. lia.
  - split; [apply prefix_take|]. split.
    + intros _. rewrite length_take. lia.
    + split; [lia|]. rewrite Hnil. split.
      * intros [?|Hk]; [auto|]. right. left. lia.
      * intros [?|[?|Hk]]; [auto| |].
        -- right. subst n. done.
        -- destruct mp_ids; [auto|]. simpl in Hk. lia.
Qed.

Lemma materials_to_process_bounds_witness :
  0 ≤ 2 ∧ -1 < 0 ∧
  length (materials_to_process_of ["mp-1"; "mp-2"; "mp-3"] 2) = 2%nat ∧
  length (materials_to_process_of ["mp-1"; "mp-2"; "mp-3"] (-1)) = 2%nat.
Proof.
  assert (H1 : 0 ≤ 2) by lia. assert (H2 : -1 < 0) by lia.
  split; [exact H1|]. split; [exact H2|]. split.
  - exact (proj1 (proj2 (materials_to_process_bounds
                           ["mp-1"; "mp-2"; "mp-3"] 2)) H1).
  - exact (proj1 (proj2 (proj2 (materials_to_process_bounds
                                  ["mp-1"; "mp-2"; "mp-3"] (-1)))) H2).
Defined.

(** ** How the function ends *)

Section Outcome.
Context {Ext F : Type} `{Arith F} `{Outside Ext F}.
Variables (api_key : string) (cref : nat).

Lemma for_materials_nonempty_counts (materials : list string)
    (E_mags : list F) (w : World Ext F) :
  materials ≠ [] →
  ∃ s f, out (for_materials api_key cref materials E_mags (0, 0)%nat w)
         = Ok (s, f) ∧
         (s + f = length materials)%nat ∧ (s + f ≠ 0)%nat.
Proof.
  intros Hne.
  destruct (for_materials_calls api_key cref materials E_mags (0, 0)%nat w)
    as ((s & f & Hout & _ & _ & Hsum) & _).
  exists s, f. split; [done|]. simpl in Hsum. split; [done|].
  destruct materials; [done|]. simpl in Hsum. lia.
Qed.
End Outcome.

(** X2: the function returns at once, with no call made, on an empty
    list of ids. On a non-empty list of which the limit leaves nothing
    (a limit of zero, for one) it makes no call either and raises
    [ZeroDivisionError] at the success rate of line 191. Otherwise it
    ends normally, with counters that add up to the number of materials
    processed. *)
Theorem sweep_outcome {Ext F : Type} `{Arith F} `{Outside Ext F}
    (api_key : string) (cref : nat) (mp_ids : list string)
    (max_materials : Z) (E_mags : list F) (w : World Ext F) :
  let materials := materials_to_process_of mp_ids max_materials in
  let r := create_field_sweep_for_all_materials api_key cref mp_ids
             max_materials E_mags w in
  (mp_ids = [] → r = {| out := Ok None; log := []; fin := w |}) ∧
  (mp_ids ≠ [] → materials = [] →
   r = {| out := Raise ZeroDivisionError; log := []; fin := w |}) ∧
  (mp_ids ≠ [] → max_materials = 0 →
   r = {| out := Raise ZeroDivisionError; log := []; fin := w |}) ∧
  (materials ≠ [] →
   ∃ s f, out r = Ok (Some (s, f)) ∧ (s + f = length materials)%nat).
Proof.
  cbv zeta.
  assert (Hzero : mp_ids ≠ [] →
            materials_to_process_of mp_ids max_materials = [] →
            create_field_sweep_for_all_materials api_key cref mp_ids
              max_materials E_mags w =
            {| out := Raise ZeroDivisionError; log := []; fin := w |}).
  { intros Hne Hmat. destruct mp_ids as [|i l]; [done|].
    unfold create_field_sweep_for_all_materials. rewrite Hmat.
    reflexivity. }
  split; [by intros ->|]. split; [exact Hzero|]. split.
  - intros Hne ->. apply Hzero; [done|].
    unfold materials_to_process_of, slice_to. simpl. apply take_0.
  - intros Hmat. destruct mp_ids as [|i l].
    { exfalso. apply Hmat. unfold materials_to_process_of, slice_to.
      destruct (_ <? _); apply take_nil. }
    destruct (for_materials_nonempty_counts api_key cref
                (materials_to_process_of (i :: l) max_materials) E_mags w
                Hmat) as (s & f & Hout & Hsum & Hnz).
    exists s, f. split; [|done].
    unfold create_field_sweep_for_all_materials.
    erewrite bind_run; [|reflexivity]. rewrite Hout. cbn [fst snd].
    destruct (Nat.eqb_spec (s + f) 0); [lia|done].
Qed.

Lemma sweep_outcome_witness :
  ["mp-5229"] ≠ [] ∧
  create_field_sweep_for_all_materials "secret" 0%nat ["mp-5229"] 0
    E_FIELD_MAGNITUDES Demo.world1 =
    {| out := Raise ZeroDivisionError; log := []; fin := Demo.world1 |} ∧
  materials_to_process_of ["mp-5229"; "mp-0"] 256 ≠ [] ∧
  ∃ s f,
    out (create_field_sweep_for_all_materials "secret" 0%nat
           ["mp-5229"; "mp-0"] 256 E_FIELD_MAGNITUDES Demo.world1)
      = Ok (Some (s, f)) ∧
    (s + f = length (materials_to_process_of ["mp-5229"; "mp-0"] 256))%nat.
Proof.
  assert (H1 : ["mp-5229"] ≠ @nil string) by discriminate.
  assert (H2 : materials_to_process_of ["mp-5229"; "mp-0"] 256 ≠ [])
    by discriminate.
  split; [exact H1|]. split.
  { exact (proj1 (proj2 (proj2
             (sweep_outcome "secret" 0%nat ["mp-5229"] 0
                E_FIELD_MAGNITUDES Demo.world1))) H1 eq_refl). }
  split; [exact H2|].
  exact (proj2 (proj2 (proj2
           (sweep_outcome "secret" 0%nat ["mp-5229"; "mp-0"] 256
              E_FIELD_MAGNITUDES Demo.world1))) H2).
Defined.

(** ** More on the CSV reader *)

Lemma zip_fold_lookup_None (kvs : list (string * string))
    (d : DictReader.row) (k : string) :
  k ∉ kvs.*1 → d !! k = None →
  foldl (fun d kv => <[kv.1 := Some kv.2]> d) d kvs !! k = None.
Proof.
  revert d. induction kvs as [|[k' v] kvs IH]; intros d Hk Hd; [done|].
  simpl in *. apply not_elem_of_cons in Hk as [Hne Hk].
  apply IH; [done|]. by rewrite lookup_insert_ne.
Qed.

Lemma fill_fold_lookup_other (keys : list string) (d : DictReader.row)
    (k : string) :
  k ∉ keys →
  foldl (fun d key => <[key := None]> d) d keys !! k = d !! k.
Proof.
  revert d. induction keys as [|k' keys IH]; intros d Hk; [done|].
  simpl. apply not_elem_of_cons in Hk as [Hne Hk].
  rewrite IH by done. by rewrite lookup_insert_ne.
Qed.

Lemma fill_fold_lookup_in (keys : list string) (d : DictReader.row)
    (k : string) :
  k ∈ keys →
  foldl (fun d key => <[key := None]> d) d keys !! k = Some None.
Proof.
  revert d. induction keys as [|k' keys IH]; intros d Hk.
  - by apply elem_of_nil in Hk.
  - simpl. destruct (decide (k ∈ keys)) as [Hin|Hnin]; [by apply IH|].
    apply elem_of_cons in Hk as [->|?]; [|done].
    rewrite fill_fold_lookup_other by done. apply lookup_insert_eq.
Qed.

Lemma make_row_lookup_absent (fieldnames record : list string)
    (k : string) :
  k ∉ fieldnames → DictReader.make_row fieldnames record !! k = None.
Proof.
  intros Hk.
  assert (Hzip : DictReader.dict_zip fieldnames record !! k = None).
  { apply zip_fold_lookup_None; [|apply lookup_empty].
    intros Hin. apply Hk. apply list_elem_of_fmap in Hin as ([k' v] & -> & Hin).
    by apply elem_of_zip_l in Hin. }
  unfold DictReader.make_row. destruct (_ <? _)%nat; [|done].
  rewrite fill_fold_lookup_other; [done|].
  intros Hin. apply Hk. apply list_elem_of_lookup in Hin as [i Hi].
  rewrite lookup_drop in Hi. by eapply list_elem_of_lookup_2.
Qed.

Lemma make_row_lookup_short (fieldnames record : list string) (k : string) :
  k ∈ drop (length record) fieldnames →
  DictReader.make_row fieldnames record !! k = Some None.
Proof.
  intros Hk. unfold DictReader.make_row.
  destruct (Nat.ltb_spec (length record) (length fieldnames)) as [Hlt|Hge].
  - by apply fill_fold_lookup_in.
  - rewrite drop_ge in Hk by done. by apply elem_of_nil in Hk.
Qed.

Lemma for_rows_no_column (fieldnames : list string) (rs : records)
    (mp_ids : list string) :
  "material_id" ∉ fieldnames →
  (for_rows fieldnames rs mp_ids).2 = mp_ids.
Proof.
  intros Hk. induction rs as [|r rest IH|e]; [done| |done].
  destruct r as [|x r]; [exact IH|].
  simpl. unfold row_body.
  pose proof (make_row_lookup_absent fieldnames (x :: r) _ Hk) as Hrow.
  unfold DictReader.cell in *. by rewrite Hrow.
Qed.

(** X3: where the header of the file has no column [material_id], the
    reader returns the empty list, whatever records follow and whether or
    not the reading ends in an error. *)
Theorem no_material_id_column (fieldnames : list string) (rs : records) :
  "material_id" ∉ fieldnames →
  read_mp_ids_from_csv (Opened (RecRow fieldnames rs)) = Ok [].
Proof.
  intros Hk. rewrite read_is_snd_with_open. simpl.
  by rewrite for_rows_no_column.
Qed.

Lemma no_material_id_column_witness :
  ("material_id" ∉ ["formula"; "mp_id"]) ∧
  read_mp_ids_from_csv
    (Opened (RecRow ["formula"; "mp_id"]
            (RecRow ["SrTiO3"; "mp-5229"] RecEnd))) = Ok [].
Proof.
  assert (H1 : "material_id" ∉ ["formula"; "mp_id"]).
  { apply (bool_decide_eq_false_1 _). reflexivity. }
  split; [exact H1|].
  exact (no_material_id_column ["formula"; "mp_id"]
           (RecRow ["SrTiO3"; "mp-5229"] RecEnd) H1).
Defined.

Lemma for_rows_short_tail (fieldnames : list string)
    (rows : list (list string)) (record : list string) (rest : records)
    (mp_ids : list string) :
  record ≠ [] →
  "material_id" ∈ drop (length record) fieldnames →
  (for_rows fieldnames (rows_then rows (RecRow record rest)) mp_ids).2 =
  (for_rows fieldnames (rows_then rows RecEnd) mp_ids).2.
Proof.
  intros Hne Hk. revert mp_ids.
  induction rows as [|r rows IH]; intros mp_ids.
  - cbn [rows_then].
    rewrite (short_row_stops_reading fieldnames record rest mp_ids Hne);
      [done|].
    by apply make_row_lookup_short.
  - destruct r as [|x r]; simpl; [apply IH|].
    destruct (row_body _ mp_ids) as [[u|e'] ids']; [apply IH | done].
Qed.

(** X4: a non-empty record that stops before a column [material_id] of
    the header ends the reading: the reader returns what the records
    before it give, and no id of a later record, whatever follows. *)
Theorem short_record_ends_reading (fieldnames : list string)
    (rows : list (list string)) (record : list string) (rest : records) :
  record ≠ [] →
  "material_id" ∈ drop (length record) fieldnames →
  read_mp_ids_from_csv
    (Opened (RecRow fieldnames (rows_then rows (RecRow record rest)))) =
  read_mp_ids_from_csv
    (Opened (RecRow fieldnames (rows_then rows RecEnd))).
Proof.
  intros Hne Hk. rewrite !read_is_snd_with_open. simpl. f_equal.
  by apply for_rows_short_tail.
Qed.

Lemma short_record_ends_reading_witness :
  ["BaTiO3"] ≠ [] ∧
  "material_id" ∈ drop (length ["BaTiO3"]) ["formula"; "material_id"] ∧
  read_mp_ids_from_csv
    (Opened (RecRow ["formula"; "material_id"]
       (rows_then [["SrTiO3"; "mp-5229"]]
          (RecRow ["BaTiO3"] (RecRow ["PbTiO3"; "mp-20459"] RecEnd))))) =
  read_mp_ids_from_csv
    (Opened (RecRow ["formula"; "material_id"]
       (rows_then [["SrTiO3"; "mp-5229"]] RecEnd))).
Proof.
  assert (H1 : ["BaTiO3"] ≠ @nil string) by discriminate.
  assert (H2 : "material_id" ∈
               drop (length ["BaTiO3"]) ["formula"; "material_id"]).
  { apply (bool_decide_unpack _). reflexivity. }
  split; [exact H1|]. split; [exact H2|].
  exact (short_record_ends_reading ["formula"; "material_id"]
           [["SrTiO3"; "mp-5229"]] ["BaTiO3"]
           (RecRow ["PbTiO3"; "mp-20459"] RecEnd) H1 H2).
Defined.

(** X5: on a file whose records all reach the end of the header or are
    empty, the reader returns, in file order, the stripped values of the
    [material_id] column that are not blank. *)
Theorem reader_on_rectangular_file (fieldnames : list string)
    (rows : list (list string)) :
  Forall (fun r => r = [] ∨ (length fieldnames ≤ length r)%nat) rows →
  read_mp_ids_from_csv (Opened (RecRow fieldnames (rows_then rows RecEnd)))
  = Ok (stripped_ids fieldnames rows).
Proof.
  intros Hrows. rewrite read_is_snd_with_open. simpl.
  by rewrite for_rows_rectangular.
Qed.

Lemma reader_on_rectangular_file_witness :
  Forall (fun r => r = [] ∨ (length ["formula"; "material_id"] ≤ length r)%nat)
    [ ["SrTiO3"; " mp-5229 "]; []; ["BaTiO3"; "  "];
      ["PbTiO3"; "mp-20459"; "extra"] ] ∧
  read_mp_ids_from_csv
    (Opened (RecRow ["formula"; "material_id"]
       (rows_then
          [ ["SrTiO3"; " mp-5229 "]; []; ["BaTiO3"; "  "];
            ["PbTiO3"; "mp-20459"; "extra"] ] RecEnd)))
  = Ok ["mp-5229"; "mp-20459"].
Proof.
  assert (H1 : Forall (fun r => r = [] ∨
                         (length ["formula"; "material_id"] ≤ length r)%nat)
                 [ ["SrTiO3"; " mp-5229 "]; []; ["BaTiO3"; "  "];
                   ["PbTiO3"; "mp-20459"; "extra"] ]).
  { repeat constructor; simpl; auto; right; lia. }
  split; [exact H1|].
  exact (reader_on_rectangular_file ["formula"; "material_id"] _ H1).
Defined.

(** *** What [strip] leaves *)

Lemma rev_app_rev_app (s t u : string) :
  String.rev_app (String.rev_app s t) u = String.rev_app t (s +:+ u).
Proof.
  revert t u. induction s as [|a s IH]; intros t u; [done|].
  simpl. by rewrite IH.
Qed.

Lemma string_app_cons (a : Ascii.ascii) (s t : string) :
  String a s +:+ t = String a (s +:+ t).
Proof. reflexivity. Qed.

Lemma string_app_nil_r (s : string) : s +:+ "" = s.
Proof.
  induction s as [|a s IH]; [done|]. by rewrite string_app_cons, IH.
Qed.

Lemma string_app_assoc (s t u : string) : (s +:+ t) +:+ u = s +:+ (t +:+ u).
Proof.
  induction s as [|a s IH]; [done|]. by rewrite !string_app_cons, IH.
Qed.

Lemma rev_rev (s : string) : String.rev (String.rev s) = s.
Proof.
  unfold String.rev. rewrite rev_app_rev_app. apply string_app_nil_r.
Qed.

Lemma rev_app_append (s u : string) :
  String.rev_app s u = String.rev s +:+ u.
Proof.
  unfold String.rev. revert u. induction s as [|a s IH]; intros u; [done|].
  cbn [String.rev_app].
  rewrite (IH (String a "")), (IH (String a u)), string_app_assoc. done.
Qed.

Lemma rev_append (s t : string) :
  String.rev (s +:+ t) = String.rev t +:+ String.rev s.
Proof.
  induction s as [|a s IH].
  - change ("" +:+ t) with t. change (String.rev "") with "".
    by rewrite string_app_nil_r.
  - rewrite string_app_cons. unfold String.rev in *.
    cbn [String.rev_app].
    rewrite (rev_app_append (s +:+ t)), (rev_app_append s).
    unfold String.rev. rewrite IH. apply string_app_assoc.
Qed.

(** [lstrip] removes a run of leading characters. *)
Lemma lstrip_suffix (s : string) : ∃ p, s = p +:+ PyStr.lstrip s.
Proof.
  induction s as [|a s [p Hp]]; [by exists ""|].
  simpl. destruct (PyStr.isspace a).
  - exists (String a p). by rewrite string_app_cons, <- Hp.
  - by exists "".
Qed.

(** [rstrip] removes a run of trailing characters. *)
Lemma rstrip_prefix (s : string) : ∃ q, s = PyStr.rstrip s +:+ q.
Proof.
  unfold PyStr.rstrip. destruct (lstrip_suffix (String.rev s)) as [p Hp].
  exists (String.rev p).
  rewrite <- rev_append, <- Hp. by rewrite rev_rev.
Qed.

Lemma lstrip_clean (s : string) : starts_clean (PyStr.lstrip s).
Proof.
  induction s as [|a s IH]; [done|]. simpl.
  destruct (PyStr.isspace a) eqn:Ha; [done|]. exact Ha.
Qed.

Lemma lstrip_id (s : string) : starts_clean s → PyStr.lstrip s = s.
Proof. destruct s as [|a s]; [done|]. simpl. by intros ->. Qed.

Lemma rstrip_clean (s : string) :
  starts_clean s → starts_clean (PyStr.rstrip s).
Proof.
  intros Hs. destruct (rstrip_prefix s) as [q Hq].
  destruct (PyStr.rstrip s) as [|c t]; [done|].
  rewrite Hq, string_app_cons in Hs. exact Hs.
Qed.

Lemma strip_fixed (s : string) :
  PyStr.lstrip (PyStr.strip s) = PyStr.strip s ∧
  PyStr.rstrip (PyStr.strip s) = PyStr.strip s.
Proof.
  split.
  - apply lstrip_id. unfold PyStr.strip. apply rstrip_clean, lstrip_clean.
  - unfold PyStr.strip, PyStr.rstrip. rewrite rev_rev.
    by rewrite (lstrip_id _ (lstrip_clean _)).
Qed.

Lemma strip_idempotent (s : string) :
  PyStr.strip (PyStr.strip s) = PyStr.strip s.
Proof.
  destruct (strip_fixed s) as [Hl Hr].
  unfold PyStr.strip at 1. by rewrite Hl, Hr.
Qed.

Lemma for_rows_stripped (fieldnames : list string) (rs : records)
    (mp_ids : list string) :
  Forall (fun id => id ≠ "" ∧ PyStr.strip id = id) mp_ids →
  Forall (fun id => id ≠ "" ∧ PyStr.strip id = id)
         (for_rows fieldnames rs mp_ids).2.
Proof.
  revert mp_ids. induction rs as [|r rest IH|e]; intros mp_ids Hids;
    [done| |done].
  destruct r as [|x r]; [by apply IH|].
  simpl. unfold row_body.
  destruct (DictReader.make_row fieldnames (x :: r) !! "material_id")
    as [[v|]|]; [| done | by apply IH].
  destruct (PyStr.truthy (PyStr.strip v)) eqn:Hv; [|by apply IH].
  apply IH. apply Forall_app. split; [done|].
  constructor; [|constructor]. split.
  - intros Heq. by rewrite Heq in Hv.
  - apply strip_idempotent.
Qed.

(** X6: every id the reader returns is non-empty and carries no white
    space at either end: stripping it again, on the left, on the right
    or on both sides, changes nothing. This holds for every file,
    the ones whose reading ends in an error included. *)
Theorem reader_ids_are_stripped (f : csv_file) :
  ∃ ids, read_mp_ids_from_csv f = Ok ids ∧
         Forall (fun id => id ≠ "" ∧ PyStr.strip id = id ∧
                           PyStr.lstrip id = id ∧ PyStr.rstrip id = id)
                ids.
Proof.
  exists (with_open f []).2. split; [apply read_is_snd_with_open|].
  assert (Hs : Forall (fun id => id ≠ "" ∧ PyStr.strip id = id)
                 (with_open f []).2).
  { destruct f as [e|[|fieldnames rest|e]]; simpl; try constructor.
    apply for_rows_stripped. constructor. }
  eapply Forall_impl; [exact Hs|].
  intros id [Hne Hid]. split; [done|]. split; [done|].
  rewrite <- Hid. apply strip_fixed.
Qed.

(** ** The script as a whole *)

Section Whole.
Context {Ext F : Type} `{Arith F} `{Outside Ext F}.

Lemma load_api_key_nonempty (env : environ) (k : string) :
  load_api_key env = Ok k → k ≠ "".
Proof.
  unfold load_api_key. destruct (api_key_of env) as [k'|] eqn:Hk; simpl.
  - destruct k' as [|a k']; simpl; [discriminate|]. by intros [= <-].
  - discriminate.
Qed.

Lemma bind_step {A B} (m : M Ext F A) (k : A → M Ext F B)
    (w : World Ext F) (a : A) :
  out (m w) = Ok a →
  out (bind m k w) = out (k a (fin (m w))) ∧
  log (bind m k w) = log (m w) ++ log (k a (fin (m w))) ∧
  fin (bind m k w) = fin (k a (fin (m w))).
Proof. intros Hm. unfold bind. by rewrite Hm. Qed.

Lemma script_run (env : environ) (w : World Ext F) (k : string)
    (f : csv_file) (x : Ext) :
  load_api_key env = Ok k →
  fs_open csv_file_path (ext w) = (f, x) →
  let ids := (with_open f []).2 in
  let w1 := {| ext := x; heap := heap w ++ [common_incar] |} in
  let r := create_field_sweep_for_all_materials k (length (heap w)) ids
             MAX_MATERIALS E_FIELD_MAGNITUDES w1 in
  out (script env w) = out r ∧
  log (script env w) = EvOpen csv_file_path :: log r ∧
  fin (script env w) = fin r.
Proof.
  intros Hk Hf. cbv zeta. unfold script. rewrite Hk. cbn [lift].
  destruct (bind_step (ret k) (fun api_key =>
              let* f := external (EvOpen csv_file_path)
                          (fun x => let '(f, x') := fs_open csv_file_path x in
                                    (Ok f, x')) in
              let* mp_ids := lift (read_mp_ids_from_csv f) in
              let* common_incar_ref := new_dict common_incar in
              match mp_ids with
              | [] => ret None
              | _ => create_field_sweep_for_all_materials api_key
                       common_incar_ref mp_ids MAX_MATERIALS
                       E_FIELD_MAGNITUDES
              end) w k eq_refl) as (-> & -> & ->).
  cbn [ret out log fin app].
  assert (Hopen : external (EvOpen csv_file_path)
                    (fun x => let '(f, x') := fs_open csv_file_path x in
                              (Ok f, x')) w =
                  {| out := Ok f; log := [EvOpen csv_file_path];
                     fin := {| ext := x; heap := heap w |} |}).
  { unfold external. by rewrite Hf. }
  destruct (bind_step _ (fun f =>
              let* mp_ids := lift (read_mp_ids_from_csv f) in
              let* common_incar_ref := new_dict common_incar in
              match mp_ids with
              | [] => ret None
              | _ => create_field_sweep_for_all_materials k
                       common_incar_ref mp_ids MAX_MATERIALS
                       E_FIELD_MAGNITUDES
              end) w f (f_equal out Hopen)) as (-> & -> & ->).
  rewrite Hopen. cbn [out log fin app].
  rewrite read_is_snd_with_open. cbn [lift].
  set (w0 := {| ext := x; heap := heap w |}).
  destruct (bind_step (ret (with_open f []).2) (fun mp_ids =>
              let* common_incar_ref := new_dict common_incar in
              match mp_ids with
              | [] => ret None
              | _ => create_field_sweep_for_all_materials k
                       common_incar_ref mp_ids MAX_MATERIALS
                       E_FIELD_MAGNITUDES
              end) w0 _ eq_refl) as (-> & -> & ->).
  cbn [ret out log fin app].
  destruct (bind_step (new_dict common_incar) (fun common_incar_ref =>
              match (with_open f []).2 with
              | [] => ret None
              | _ => create_field_sweep_for_all_materials k
                       common_incar_ref (with_open f []).2 MAX_MATERIALS
                       E_FIELD_MAGNITUDES
              end) w0 _ eq_refl) as (-> & -> & ->).
  unfold new_dict, w0. cbn [out log fin app ext heap].
  destruct ((with_open f []).2) as [|i l]; done.
Qed.
End Whole.

(** X7: the script never sends a request to the API with an empty key:
    every request carries the non-empty key that was loaded at start-up. *)
Theorem requests_carry_a_key {Ext F : Type} `{Arith F} `{Outside Ext F}
    (env : environ) (w : World Ext F) :
  Forall (fun k => k ≠ "" ∧ load_api_key env = Ok k)
         (keys_used (log (script env w))).
Proof.
  destruct (load_api_key env) as [k|e] eqn:Hk.
  - destruct (script_calls env w k Hk) as (mp_ids & _ & -> & _).
    apply Forall_forall. intros k' Hin.
    apply list_elem_of_fmap in Hin as (? & -> & _).
    split; [by eapply load_api_key_nonempty | done].
  - rewrite (script_without_key env w e Hk). constructor.
Qed.

(** X8: where the reader finds no id (the CSV file is missing, is empty,
    or has no usable [material_id] value), the script ends normally after
    opening the file: it sends no request, makes no directory and writes
    nothing, and only creates the [common_incar] object. *)
Theorem no_ids_no_requests {Ext F : Type} `{Arith F} `{Outside Ext F}
    (env : environ) (w : World Ext F) (k : string) :
  load_api_key env = Ok k →
  read_mp_ids_from_csv (fs_open csv_file_path (ext w)).1 = Ok [] →
  out (script env w) = Ok None ∧
  log (script env w) = [EvOpen csv_file_path] ∧
  heap (fin (script env w)) = heap w ++ [common_incar].
Proof.
  intros Hk Hread.
  destruct (fs_open csv_file_path (ext w)) as [f x] eqn:Hf.
  destruct (script_run env w k f x Hk Hf) as (-> & -> & ->).
  rewrite read_is_snd_with_open in Hread. simpl in Hread.
  injection Hread as ->. done.
Qed.

Lemma no_ids_no_requests_witness :
  let w : World csv_file float :=
    {| ext := OpenFails (Exn "FileNotFoundError" "No such file");
       heap := [] |} in
  load_api_key Demo.env = Ok "secret" ∧
  read_mp_ids_from_csv (fs_open csv_file_path (ext w)).1 = Ok [] ∧
  out (script Demo.env w) = Ok None ∧
  log (script Demo.env w) = [EvOpen csv_file_path] ∧
  heap (fin (script Demo.env w)) = heap w ++ [common_incar].
Proof.
  intros w.
  assert (H1 : load_api_key Demo.env = Ok "secret") by reflexivity.
  assert (H2 : read_mp_ids_from_csv (fs_open csv_file_path (ext w)).1
               = Ok []) by reflexivity.
  split; [exact H1|]. split; [exact H2|].
  exact (no_ids_no_requests Demo.env w "secret" H1 H2).
Defined.

(** X9: with a key, the script opens the CSV file first and only once,
    and the ids it then requests from the API are, in order, the first
    256 of the ids the reader returns for that file. *)
Theorem script_requests_what_was_read {Ext F : Type} `{Arith F}
    `{Outside Ext F} (env : environ) (w : World Ext F) (k : string) :
  load_api_key env = Ok k →
  ∃ ids rest,
    read_mp_ids_from_csv (fs_open csv_file_path (ext w)).1 = Ok ids ∧
    log (script env w) = EvOpen csv_file_path :: rest ∧
    file_opens rest = [] ∧
    requested_ids rest = take 256 ids.
Proof.
  intros Hk.
  destruct (fs_open csv_file_path (ext w)) as [f x] eqn:Hf.
  destruct (script_run env w k f x Hk Hf) as (_ & Hlog & _).
  cbv zeta in Hlog.
  exists (with_open f []).2. eexists.
  split; [apply read_is_snd_with_open|]. split; [exact Hlog|].
  destruct (create_unfold k (length (heap w)) (with_open f []).2
              MAX_MATERIALS E_FIELD_MAGNITUDES
              {| ext := x; heap := heap w ++ [common_incar] |})
    as [-> _].
  rewrite materials_to_process_256.
  destruct (for_materials_calls k (length (heap w))
              (take 256 (with_open f []).2) E_FIELD_MAGNITUDES (0, 0)%nat
              {| ext := x; heap := heap w ++ [common_incar] |})
    as (_ & Hreq & _ & Hopen).
  done.
Qed.

Lemma script_requests_what_was_read_witness :
  load_api_key Demo.env = Ok "secret" ∧
  read_mp_ids_from_csv (fs_open csv_file_path (ext Demo.world0)).1
    = Ok ["mp-5229"; "mp-0"; "mp-20459"] ∧
  requested_ids (log (script Demo.env Demo.world0))
    = ["mp-5229"; "mp-0"; "mp-20459"].
Proof.
  assert (H1 : load_api_key Demo.env = Ok "secret") by reflexivity.
  destruct (script_requests_what_was_read Demo.env Demo.world0 "secret" H1)
    as (ids & rest & Hids & Hlog & _ & Hreq).
  split; [exact H1|].
  assert (H2 : read_mp_ids_from_csv
                 (fs_open csv_file_path (ext Demo.world0)).1
               = Ok ["mp-5229"; "mp-0"; "mp-20459"])
    by (vm_compute; reflexivity).
  split; [exact H2|].
  rewrite Hlog. unfold requested_ids in *. cbn [omap list_omap].
  rewrite Hreq. rewrite H2 in Hids. injection Hids as <-. reflexivity.
Defined.

(** ** The direction of the field, in exact arithmetic *)

Lemma c_hat_scaled (c : vec3 R) (k : R) :
  c ≠ V3 0%R 0%R 0%R → (k ≠ 0)%R →
  c_hat_of (vmul c k) = vmul (c_hat_of c) (k / Rabs k)%R.
Proof.
  intros Hc Hk. pose proof (norm_pos c Hc) as Hn.
  assert (Ha : (0 < Rabs k)%R) by (by apply Rabs_pos_lt).
  unfold c_hat_of. rewrite norm_vmul.
  destruct c as [x y z]. unfold vdiv, vmul. cbn [vx vy vz fdiv fmul exact].
  generalize dependent (norm (V3 x y z)). intros n Hn.
  f_equal; field; split; lra.
Qed.



(** ** The order of the calls, and the objects that are left alone *)

Section Order.
Context {Ext F : Type} `{Arith F} `{Outside Ext F}.
Variables (cref : nat) (d0 : dict F) (h0 : list (dict F)).
Hypothesis common_in_h0 : h0 !! cref = Some d0.

Local Abbreviation follows' := (follows (Ext := Ext) h0).

Lemma prefix_insert_ge (l : list (dict F)) (i : nat) (d : dict F) :
  h0 `prefix_of` l → (length h0 ≤ i)%nat → h0 `prefix_of` <[i := d]> l.
Proof.
  intros [k ->] Hi. exists (<[(i - length h0)%nat := d]> k).
  by rewrite insert_app_r_alt.
Qed.

Lemma follows_bind {A B} Pre (m : M Ext F A) e1 Mid (k : A → M Ext F B)
    e2 Post :
  follows' Pre m e1 Mid →
  (∀ a, follows' (Mid a) (k a) e2 Post) →
  follows' Pre (bind m k) (e1 ++ e2) Post.
Proof.
  intros Hm Hk w Hh Hpre. destruct (Hm w Hh Hpre) as (Hh1 & Hl1 & Hp1).
  unfold bind. destruct (out (m w)) as [a|e]; simpl.
  - destruct (Hp1 a eq_refl) as [-> Hmid].
    destruct (Hk a (fin (m w)) Hh1 Hmid) as (Hh2 & Hl2 & Hp2).
    split; [done|]. split; [by apply prefix_app|].
    intros b Hb. destruct (Hp2 b Hb) as [-> Hpost]. done.
  - split; [done|]. split; [by apply prefix_app_r|]. discriminate.
Qed.

Lemma follows_post {A} Pre (m : M Ext F A) e (Post Post' : _ → _ → Prop) :
  follows' Pre m e Post →
  (∀ a h, Post a h → Post' a h) →
  follows' Pre m e Post'.
Proof.
  intros Hm Himp w Hh Hpre. destruct (Hm w Hh Hpre) as (? & ? & Hp).
  split; [done|]. split; [done|].
  intros a Ha. destruct (Hp a Ha). split; [done|]. by apply Himp.
Qed.

Lemma follows_pre {A} (φ : Prop) Pre Pre' (m : M Ext F A) e Post :
  (∀ h, Pre h → φ ∧ Pre' h) →
  (φ → follows' Pre' m e Post) →
  follows' Pre m e Post.
Proof.
  intros Himp Hm w Hh Hpre. destruct (Himp _ Hpre) as [Hφ Hpre'].
  by apply Hm.
Qed.

Lemma follows_calls {A} Pre (m : M Ext F A) e e' Post :
  e = e' → follows' Pre m e Post → follows' Pre m e' Post.
Proof. by intros ->. Qed.

Lemma follows_ret {A} Pre (a : A) :
  follows' Pre (ret a) [] (fun a' h => a' = a ∧ Pre h).
Proof. intros w Hh Hpre. simpl. split; [done|]. split; [done|].
  by intros a' [= <-]. Qed.

Lemma follows_external {A} Pre ev (call : Ext → outcome A * Ext) :
  follows' Pre (external ev call) [ev] (fun _ h => Pre h).
Proof.
  intros w Hh Hpre. unfold external. destruct (call (ext w)) as [o x].
  simpl. done.
Qed.

Lemma follows_dict_spread Pre name items :
  follows' Pre (dict_spread name cref items) []
    (fun ref h => (length h0 ≤ ref)%nat ∧
                  h !! ref = Some (dict_update d0 items)).
Proof.
  intros w Hh _. unfold dict_spread.
  rewrite (prefix_lookup_Some _ _ _ _ common_in_h0 Hh). simpl.
  split; [by apply prefix_app_r|]. split; [done|].
  intros ref [= <-]. split; [done|]. split.
  - by apply prefix_length.
  - by apply list_lookup_middle.
Qed.

Lemma follows_with_dict {A} ref (ev : dict F → event F)
    (call : dict F → Ext → outcome A * Ext) (d : dict F) :
  (length h0 ≤ ref)%nat →
  follows' (fun h => h !! ref = Some d) (with_dict ref ev call) [ev d]
    (fun _ h => is_Some (h !! ref)).
Proof.
  intros Href w Hh Hd. unfold with_dict. rewrite Hd.
  destruct (call d (ext w)) as [o x]. simpl.
  split; [by apply prefix_insert_ge|]. split; [done|].
  intros _ _. split; [done|].
  rewrite list_lookup_insert_eq; [by eexists|]. by eapply lookup_lt_Some.
Qed.

Lemma follows_MPStaticSet s ref k (d : dict F) :
  (length h0 ≤ ref)%nat →
  follows' (fun h => h !! ref = Some d) (MPStaticSet s ref k)
    [EvStaticSet s d k]
    (fun v h => vs_incar v = ref ∧ is_Some (h !! ref)).
Proof.
  intros Href. unfold MPStaticSet.
  apply (follows_calls _ _ ([EvStaticSet s d k] ++ [])); [done|].
  eapply follows_bind.
  { by apply (follows_with_dict ref (fun d => EvStaticSet s d k)). }
  intros u. eapply follows_post; [apply follows_ret|].
  intros v h [Hv Hh]. by rewrite Hv.
Qed.

Lemma follows_write_input v dir b :
  (length h0 ≤ vs_incar v)%nat →
  follows' (fun h => is_Some (h !! vs_incar v)) (write_input v dir b)
    [EvWriteInput dir b] (fun _ _ => True).
Proof.
  intros Href w Hh [d Hd]. unfold write_input.
  destruct (follows_with_dict (vs_incar v) (fun _ => EvWriteInput dir b)
              (fun d => pmg_write_input (vs_structure v) d (vs_kpoints v)
                          dir b) d Href w Hh Hd) as (Hh' & Hl & Hp).
  split; [done|]. split; [done|].
  intros u Hu. by destruct (Hp u Hu).
Qed.

Lemma follows_field_case s root c_hat E n :
  follows' (fun _ => True)
    (field_case cref s root (gamma_automatic (8, 8, 8)) c_hat E n)
    (field_calls root s d0 c_hat E) (fun _ _ => True).
Proof.
  unfold field_case, mkdir.
  apply (follows_calls _ _
           ([EvMkdir (root /: tag_of E) true true] ++ [] ++
            [EvStaticSet s (field_incar_of d0 (tolist (vmul c_hat E)))
               (gamma_automatic (8, 8, 8))] ++
            [EvWriteInput (path_str (root /: tag_of E)) true] ++ []));
    [done|].
  eapply follows_bind; [apply (follows_external (fun _ => True))|].
  intros ?.
  eapply follows_bind; [apply (follows_dict_spread (fun _ => True))|].
  intros ref.
  apply (follows_pre (length h0 ≤ ref)%nat _
           (fun h => h !! ref = Some (field_incar_of d0
                                       (tolist (vmul c_hat E)))));
    [naive_solver|]. intros Href.
  eapply follows_bind; [by apply follows_MPStaticSet|]. intros v.
  apply (follows_pre (vs_incar v = ref) _
           (fun h => is_Some (h !! vs_incar v)));
    [by intros h [<- ?]|]. intros Hv.
  eapply follows_bind; [apply follows_write_input; lia|]. intros ?.
  eapply follows_post; [apply (follows_ret (fun _ => True))|]. done.
Qed.

Lemma follows_for_E s root c_hat E_mags n :
  follows' (fun _ => True)
    (for_E cref s root (gamma_automatic (8, 8, 8)) c_hat E_mags n)
    (concat (map (field_calls root s d0 c_hat) E_mags)) (fun _ _ => True).
Proof.
  revert n. induction E_mags as [|E E_mags IH]; intros n.
  - simpl. eapply follows_post; [apply (follows_ret (fun _ => True))|].
    done.
  - cbn [for_E map concat].
    eapply follows_bind; [apply follows_field_case|]. intros n'. apply IH.
Qed.

Lemma follows_make_inputs mp_id s E_mags :
  follows' (fun _ => True) (make_inputs cref mp_id s E_mags)
    (expected_calls mp_id s d0 E_mags) (fun _ _ => True).
Proof.
  unfold make_inputs, mkdir, expected_calls, zero_field_calls.
  set (root := Path ("finite_field_sweep_" +:+ mp_id)).
  apply (follows_calls _ _
           ([EvMkdir root false true] ++
            [EvMkdir (root /: "E0_ref") false true] ++ [] ++
            [EvStaticSet s d0 (gamma_automatic (8, 8, 8))] ++
            [EvWriteInput (path_str (root /: "E0_ref")) true] ++
            concat (map (field_calls root s d0
                           (c_hat_of (matrix_2 (lattice s)))) E_mags) ++
            [])).
  { simpl. by rewrite app_nil_r. }
  eapply follows_bind; [apply (follows_external (fun _ => True))|].
  intros ?.
  eapply follows_bind; [apply (follows_external (fun _ => True))|].
  intros ?.
  eapply follows_bind; [apply (follows_dict_spread (fun _ => True))|].
  intros ref.
  apply (follows_pre (length h0 ≤ ref)%nat _
           (fun h => h !! ref = Some d0)); [naive_solver|]. intros Href.
  eapply follows_bind; [by apply follows_MPStaticSet|]. intros v.
  apply (follows_pre (vs_incar v = ref) _
           (fun h => is_Some (h !! vs_incar v)));
    [by intros h [<- ?]|]. intros Hv.
  eapply follows_bind; [apply follows_write_input; lia|]. intros ?.
  eapply follows_bind; [apply follows_for_E|]. intros ?.
  eapply follows_post; [apply (follows_ret (fun _ => True))|]. done.
Qed.
End Order.

Section Turns.
Context {Ext F : Type} `{Arith F} `{Outside Ext F}.
Variables (api_key : string) (cref : nat) (d0 : dict F)
  (h0 : list (dict F)).
Hypothesis common_in_h0 : h0 !! cref = Some d0.

Lemma try_body_follows (mp_id : string) (E_mags : list F)
    (w : World Ext F) :
  h0 `prefix_of` heap w →
  let b := try_body api_key cref mp_id E_mags w in
  h0 `prefix_of` heap (fin b) ∧
  (∀ s, (mp_get_structure_by_material_id api_key mp_id (ext w)).1 = Ok s →
        log b `prefix_of`
          EvGetStructure api_key mp_id :: expected_calls mp_id s d0 E_mags) ∧
  (∀ e, (mp_get_structure_by_material_id api_key mp_id (ext w)).1
          = Raise e →
        log b = [EvGetStructure api_key mp_id] ∧ heap (fin b) = heap w).
Proof.
  intros Hh. cbv zeta.
  unfold try_body, bind, get_structure_from_mp, external.
  destruct (mp_get_structure_by_material_id api_key mp_id (ext w))
    as [[s|e] x]; simpl.
  - destruct (follows_make_inputs cref d0 h0 common_in_h0 mp_id s E_mags
                {| ext := x; heap := heap w |} Hh I) as (Hh' & Hl & _).
    split; [done|]. split; [|discriminate].
    intros s' [= <-]. by apply prefix_cons.
  - split; [done|]. split; [discriminate|]. done.
Qed.

Lemma for_materials_follows (materials : list string) (E_mags : list F)
    (counts : nat * nat) (w : World Ext F) :
  h0 `prefix_of` heap w →
  h0 `prefix_of`
    heap (fin (for_materials api_key cref materials E_mags counts w)).
Proof.
  revert counts w. induction materials as [|mp_id rest IH];
    intros counts w Hh; [done|].
  destruct (for_materials_cons api_key cref mp_id rest E_mags counts w)
    as (counts' & _ & _ & _ & ->). cbv zeta in *.
  destruct (iteration_unfold api_key cref mp_id E_mags counts w)
    as (_ & _ & Hif). cbv zeta in *.
  apply IH. rewrite Hif. by apply try_body_follows.
Qed.
End Turns.

Lemma written_after_made_prefix {F} (made : list string)
    (l1 l2 : list (event F)) :
  written_after_made made (l1 ++ l2) → written_after_made made l1.
Proof.
  revert made. induction l1 as [|e l1 IH]; intros made; [done|].
  destruct e; simpl; try apply IH.
  intros [Hin Hrest]. split; [done|]. by apply IH.
Qed.

Lemma written_after_made_fields {Ext F : Type} `{Arith F} `{Outside Ext F}
    (made : list string) root (s : Structure F) (d : dict F) c_hat
    (E_mags : list F) :
  written_after_made made
    (concat (map (field_calls (Ext := Ext) root s d c_hat) E_mags)).
Proof.
  revert made. induction E_mags as [|E E_mags IH]; intros made; [done|].
  simpl. split; [apply elem_of_cons; by left | apply IH].
Qed.

Lemma written_after_made_expected {Ext F : Type} `{Arith F}
    `{Outside Ext F} (mp_id : string) (s : Structure F) (d : dict F)
    (E_mags : list F) :
  written_after_made []
    (expected_calls (Ext := Ext) mp_id s d E_mags).
Proof.
  unfold expected_calls, zero_field_calls. simpl.
  split; [apply elem_of_cons; by left|].
  apply written_after_made_fields.
Qed.

(** X11: whatever the outcome of a turn, its calls come in the order of a
    successful turn and stop where the first call raises: after a request
    that raises nothing else is called and no object is created; after a
    request that returns a structure the calls are an initial part of
    those of the successful turn for that structure; and every
    [write_input] goes to a directory that an earlier [mkdir] of the same
    turn has made. *)
Theorem turn_calls_in_order {Ext F : Type} `{Arith F} `{Outside Ext F}
    (api_key : string) (cref : nat) (d : dict F) (mp_id : string)
    (E_mags : list F) (w : World Ext F) :
  heap w !! cref = Some d →
  let b := try_body api_key cref mp_id E_mags w in
  written_after_made [] (log b) ∧
  (∀ s, (mp_get_structure_by_material_id api_key mp_id (ext w)).1 = Ok s →
        log b `prefix_of`
          EvGetStructure api_key mp_id :: expected_calls mp_id s d E_mags) ∧
  (∀ e, (mp_get_structure_by_material_id api_key mp_id (ext w)).1
          = Raise e →
        log b = [EvGetStructure api_key mp_id] ∧ heap (fin b) = heap w).
Proof.
  intros Hd. cbv zeta.
  destruct (try_body_follows api_key cref d (heap w) Hd mp_id E_mags w)
    as (_ & Hok & Hraise); [done|].
  split; [|done].
  destruct ((mp_get_structure_by_material_id api_key mp_id (ext w)).1)
    as [s|e].
  - destruct (Hok s eq_refl) as [k Hk].
    apply (written_after_made_prefix [] _ k). rewrite <- Hk. simpl.
    apply written_after_made_expected.
  - destruct (Hraise e eq_refl) as [-> _]. done.
Qed.

Lemma turn_calls_in_order_witness :
  heap Demo.world1 !! 0%nat = Some common_incar ∧
  (mp_get_structure_by_material_id "secret" "mp-28" (ext Demo.world1)).1
    = Ok Demo.SrTiO3 ∧
  written_after_made []
    (log (try_body "secret" 0%nat "mp-28" E_FIELD_MAGNITUDES
            Demo.world1)) ∧
  log (try_body "secret" 0%nat "mp-28" E_FIELD_MAGNITUDES Demo.world1)
    `prefix_of`
    EvGetStructure "secret" "mp-28" ::
    expected_calls (Ext := csv_file) "mp-28" Demo.SrTiO3 common_incar
      E_FIELD_MAGNITUDES.
Proof.
  assert (H1 : heap Demo.world1 !! 0%nat = Some common_incar)
    by reflexivity.
  assert (H2 : (mp_get_structure_by_material_id "secret" "mp-28"
                  (ext Demo.world1)).1 = Ok Demo.SrTiO3) by reflexivity.
  destruct (turn_calls_in_order "secret" 0%nat common_incar "mp-28"
              E_FIELD_MAGNITUDES Demo.world1 H1) as (Hw & Hok & _).
  split; [exact H1|]. split; [exact H2|]. split; [exact Hw|].
  exact (Hok Demo.SrTiO3 H2).
Defined.

(** In the concrete world the turn for [mp-28] stops at the first
    [write_input]: the root and [E0_ref] are made, nothing is written. *)
Example demo_failed_turn :
  let l := log (try_body "secret" 0%nat "mp-28" E_FIELD_MAGNITUDES
                  Demo.world1) in
  map path_str (made_dirs l) =
    ["finite_field_sweep_mp-28"; "finite_field_sweep_mp-28/E0_ref"] ∧
  length l = 5%nat ∧
  out (try_body "secret" 0%nat "mp-28" E_FIELD_MAGNITUDES Demo.world1)
    = Raise Demo.OSError.
Proof. vm_compute. done. Qed.

(** X12: the function changes no dictionary object that exists when it
    is called (the global [common_incar] must be one of them): the heap
    it leaves begins with the heap it found, so every object is found
    again under its address with its contents, and all that the calls
    into pymatgen can change are the copies made during the run. *)
Theorem existing_objects_untouched {Ext F : Type} `{Arith F}
    `{Outside Ext F} (api_key : string) (cref : nat) (d : dict F)
    (mp_ids : list string) (max_materials : Z) (E_mags : list F)
    (w : World Ext F) :
  heap w !! cref = Some d →
  let r := create_field_sweep_for_all_materials api_key cref mp_ids
             max_materials E_mags w in
  heap w `prefix_of` heap (fin r) ∧
  ∀ i d', heap w !! i = Some d' → heap (fin r) !! i = Some d'.
Proof.
  intros Hd r. subst r.
  destruct (create_unfold api_key cref mp_ids max_materials E_mags w)
    as [_ ->].
  assert (Hp : heap w `prefix_of`
                 heap (fin (for_materials api_key cref
                              (materials_to_process_of mp_ids max_materials)
                              E_mags (0, 0)%nat w))).
  { by apply (for_materials_follows api_key cref d (heap w) Hd). }
  split; [done|].
  intros i d' Hi. by eapply prefix_lookup_Some.
Qed.

Lemma existing_objects_untouched_witness :
  let w : World csv_file float :=
    {| ext := Demo.the_csv; heap := [common_incar; {[ "K" := PInt 1 ]}] |} in
  heap w !! 0%nat = Some common_incar ∧
  heap w `prefix_of`
    heap (fin (create_field_sweep_for_all_materials "secret" 0%nat
                 ["mp-5229"; "mp-28"] MAX_MATERIALS E_FIELD_MAGNITUDES w)).
Proof.
  intros w.
  assert (H1 : heap w !! 0%nat = Some common_incar) by reflexivity.
  split; [exact H1|].
  exact (proj1 (existing_objects_untouched "secret" 0%nat common_incar
                  ["mp-5229"; "mp-28"] MAX_MATERIALS E_FIELD_MAGNITUDES
                  w H1)).
Defined.

(** ** A run in which no call fails *)

Section NoFailure.
Context {Ext F : Type} `{Arith F} `{Outside Ext F}.
Variables (api_key : string) (cref : nat) (d0 : dict F).

Hypothesis get_ok : ∀ k mp_id x,
  ∃ s, (mp_get_structure_by_material_id k mp_id x).1 = Ok s.
Hypothesis mkdir_ok : ∀ p a b x, (fs_mkdir p a b x).1 = Ok tt.
Hypothesis set_ok : ∀ s d k x, (pmg_MPStaticSet s d k x).1 = Ok tt.
Hypothesis write_ok : ∀ s d k dir b x,
  (pmg_write_input s d k dir b x).1 = Ok tt.

Local Abbreviation succeeds' := (succeeds (Ext := Ext) cref d0).

Lemma succeeds_bind {A B} Pre (m : M Ext F A) Mid (k : A → M Ext F B) Post :
  succeeds' Pre m Mid →
  (∀ a, succeeds' (Mid a) (k a) Post) →
  succeeds' Pre (bind m k) Post.
Proof.
  intros Hm Hk w Hd Hpre. destruct (Hm w Hd Hpre) as (a & Ha & Hd1 & Hmid).
  destruct (Hk a (fin (m w)) Hd1 Hmid) as (b & Hb & Hd2 & Hpost).
  exists b. unfold bind. rewrite Ha. simpl. done.
Qed.

Lemma succeeds_pre {A} (φ : Prop) Pre Pre' (m : M Ext F A) Post :
  (∀ h, Pre h → φ ∧ Pre' h) →
  (φ → succeeds' Pre' m Post) →
  succeeds' Pre m Post.
Proof.
  intros Himp Hm w Hd Hpre. destruct (Himp _ Hpre) as [Hφ Hpre'].
  by apply Hm.
Qed.

Lemma succeeds_ret {A} Pre (a : A) :
  succeeds' Pre (ret a) (fun a' h => a' = a ∧ Pre h).
Proof. intros w Hd Hpre. by exists a. Qed.

Lemma succeeds_mkdir Pre p a b :
  succeeds' Pre (mkdir p a b) (fun _ h => Pre h).
Proof.
  intros w Hd Hpre. exists tt. unfold mkdir, external.
  pose proof (mkdir_ok p a b (ext w)) as Hok.
  destruct (fs_mkdir p a b (ext w)) as [o x]. simpl in *. by subst o.
Qed.

Lemma succeeds_dict_spread Pre name items :
  succeeds' Pre (dict_spread name cref items)
    (fun ref h => ref ≠ cref ∧ is_Some (h !! ref)).
Proof.
  intros w Hd _. exists (length (heap w)). unfold dict_spread.
  rewrite Hd. simpl. pose proof (lookup_lt_Some _ _ _ Hd) as Hlt.
  split; [done|]. split; [by rewrite lookup_app_l|].
  split; [lia|]. rewrite list_lookup_middle by done. by eexists.
Qed.

Lemma succeeds_MPStaticSet s ref k :
  ref ≠ cref →
  succeeds' (fun h => is_Some (h !! ref)) (MPStaticSet s ref k)
    (fun v h => vs_incar v = ref ∧ is_Some (h !! ref)).
Proof.
  intros Hne w Hd [d Hr].
  exists {| vs_structure := s; vs_incar := ref; vs_kpoints := k |}.
  unfold MPStaticSet, bind, with_dict. rewrite Hr.
  pose proof (set_ok s d k (ext w)) as Hok.
  destruct (pmg_MPStaticSet s d k (ext w)) as [o x]. simpl in *. subst o.
  simpl. split; [done|]. split; [by rewrite list_lookup_insert_ne|].
  split; [done|]. rewrite list_lookup_insert_eq; [by eexists|].
  by eapply lookup_lt_Some.
Qed.

Lemma succeeds_write_input v dir b :
  vs_incar v ≠ cref →
  succeeds' (fun h => is_Some (h !! vs_incar v)) (write_input v dir b)
    (fun _ _ => True).
Proof.
  intros Hne w Hd [d Hr]. exists tt. unfold write_input, with_dict.
  rewrite Hr.
  pose proof (write_ok (vs_structure v) d (vs_kpoints v) dir b (ext w))
    as Hok.
  destruct (pmg_write_input _ d _ dir b (ext w)) as [o x]. simpl in *.
  subst o. split; [done|]. split; [by rewrite list_lookup_insert_ne|done].
Qed.

Lemma succeeds_field_case s root k c_hat E n :
  succeeds' (fun _ => True) (field_case cref s root k c_hat E n)
    (fun _ _ => True).
Proof.
  unfold field_case.
  eapply succeeds_bind; [apply (succeeds_mkdir (fun _ => True))|].
  intros ?.
  eapply succeeds_bind; [apply (succeeds_dict_spread (fun _ => True))|].
  intros ref.
  apply (succeeds_pre (ref ≠ cref) _ (fun h => is_Some (h !! ref)));
    [done|]. intros Hne.
  eapply succeeds_bind; [by apply succeeds_MPStaticSet|]. intros v.
  apply (succeeds_pre (vs_incar v = ref) _
           (fun h => is_Some (h !! vs_incar v)));
    [by intros h [<- ?]|]. intros Hv.
  eapply succeeds_bind; [apply succeeds_write_input; congruence|].
  intros ?. intros w Hd _. eexists. done.
Qed.

Lemma succeeds_for_E s root k c_hat E_mags n :
  succeeds' (fun _ => True) (for_E cref s root k c_hat E_mags n)
    (fun _ _ => True).
Proof.
  revert n. induction E_mags as [|E E_mags IH]; intros n.
  - intros w Hd _. by exists n.
  - cbn [for_E].
    eapply succeeds_bind; [apply succeeds_field_case|]. intros n'.
    apply IH.
Qed.

Lemma succeeds_make_inputs mp_id s E_mags :
  succeeds' (fun _ => True) (make_inputs cref mp_id s E_mags)
    (fun _ _ => True).
Proof.
  unfold make_inputs.
  eapply succeeds_bind; [apply (succeeds_mkdir (fun _ => True))|].
  intros ?.
  eapply succeeds_bind; [apply (succeeds_mkdir (fun _ => True))|].
  intros ?.
  eapply succeeds_bind; [apply (succeeds_dict_spread (fun _ => True))|].
  intros ref.
  apply (succeeds_pre (ref ≠ cref) _ (fun h => is_Some (h !! ref)));
    [done|]. intros Hne.
  eapply succeeds_bind; [by apply succeeds_MPStaticSet|]. intros v.
  apply (succeeds_pre (vs_incar v = ref) _
           (fun h => is_Some (h !! vs_incar v)));
    [by intros h [<- ?]|]. intros Hv.
  eapply succeeds_bind; [apply succeeds_write_input; congruence|].
  intros ?.
  eapply succeeds_bind; [apply succeeds_for_E|]. intros ?.
  intros w Hd _. by exists tt.
Qed.

Lemma try_body_succeeds (mp_id : string) (E_mags : list F)
    (w : World Ext F) :
  heap w !! cref = Some d0 →
  out (try_body api_key cref mp_id E_mags w) = Ok tt ∧
  heap (fin (try_body api_key cref mp_id E_mags w)) !! cref = Some d0.
Proof.
  intros Hd. destruct (get_ok api_key mp_id (ext w)) as [s Hs].
  unfold try_body, bind, get_structure_from_mp, external.
  destruct (mp_get_structure_by_material_id api_key mp_id (ext w))
    as [o x]. simpl in Hs. subst o. simpl.
  destruct (succeeds_make_inputs mp_id s E_mags
              {| ext := x; heap := heap w |} Hd I) as ([] & Hok & Hd' & _).
  by rewrite Hok.
Qed.

Lemma made_dirs_expected (mp_id : string) (s : Structure F) (d : dict F)
    (E_mags : list F) :
  made_dirs (EvGetStructure api_key mp_id ::
             expected_calls (Ext := Ext) mp_id s d E_mags) =
  sweep_dirs tag_of mp_id E_mags.
Proof.
  unfold expected_calls, zero_field_calls, sweep_dirs, made_dirs.
  cbn [omap list_omap app]. f_equal. f_equal.
  apply (made_dirs_field_calls (Ext := Ext)).
Qed.

Lemma for_materials_all_succeed (materials : list string)
    (E_mags : list F) (counts : nat * nat) (w : World Ext F) :
  heap w !! cref = Some d0 →
  let r := for_materials api_key cref materials E_mags counts w in
  out r = Ok (counts.1 + length materials, counts.2)%nat ∧
  made_dirs (log r) =
    concat (map (fun mp_id => sweep_dirs tag_of mp_id E_mags) materials).
Proof.
  revert counts w. induction materials as [|mp_id rest IH];
    intros [c1 c2] w Hd.
  - simpl. by rewrite Nat.add_0_r.
  - destruct (for_materials_cons api_key cref mp_id rest E_mags (c1, c2) w)
      as (counts' & Hc & Hout & Hlog & _). cbv zeta in *.
    destruct (iteration_unfold api_key cref mp_id E_mags (c1, c2) w)
      as (Hi & Hil & Hif). cbv zeta in *.
    destruct (try_body_succeeds mp_id E_mags w Hd) as [Hok Hd'].
    destruct (try_body_success api_key cref d0 mp_id E_mags w Hd Hok)
      as (s & _ & Hbody).
    rewrite Hok in Hi. rewrite Hi in Hc. injection Hc as <-.
    rewrite <- Hif in Hd'.
    destruct (IH ((c1 + 1)%nat, c2) _ Hd') as [Hout' Hdirs'].
    cbn [fst snd] in *.
    rewrite Hout, Hout', Hlog, Hil, Hbody.
    split; [f_equal; f_equal; simpl; lia|].
    unfold made_dirs in *. rewrite omap_app. rewrite Hdirs'.
    cbn [map concat]. f_equal.
    apply made_dirs_expected.
Qed.
End NoFailure.

(** X13: where no call to the API, to the file system or to pymatgen
    raises, every material within the limit is processed successfully:
    the function ends with [success_count] equal to the number of
    materials and [fail_count] zero, and the directories it has made are,
    material after material, the root, [E0_ref] and one directory per
    field magnitude. *)
Theorem all_materials_succeed {Ext F : Type} `{Arith F} `{Outside Ext F}
    (api_key : string) (cref : nat) (d : dict F) (mp_ids : list string)
    (max_materials : Z) (E_mags : list F) (w : World Ext F) :
  (∀ k mp_id x,
     ∃ s, (mp_get_structure_by_material_id k mp_id x).1 = Ok s) →
  (∀ p a b x, (fs_mkdir p a b x).1 = Ok tt) →
  (∀ s d k x, (pmg_MPStaticSet s d k x).1 = Ok tt) →
  (∀ s d k dir b x, (pmg_write_input s d k dir b x).1 = Ok tt) →
  heap w !! cref = Some d →
  materials_to_process_of mp_ids max_materials ≠ [] →
  let materials := materials_to_process_of mp_ids max_materials in
  let r := create_field_sweep_for_all_materials api_key cref mp_ids
             max_materials E_mags w in
  out r = Ok (Some (length materials, 0%nat)) ∧
  made_dirs (log r) =
    concat (map (fun mp_id => sweep_dirs tag_of mp_id E_mags) materials).
Proof.
  intros Hget Hmk Hset Hwr Hd Hne materials r. subst materials r.
  destruct (for_materials_all_succeed api_key cref d Hget Hmk Hset Hwr
              (materials_to_process_of mp_ids max_materials) E_mags
              (0, 0)%nat w Hd) as [Hout Hdirs].
  cbn [fst snd] in Hout.
  destruct (create_unfold api_key cref mp_ids max_materials E_mags w)
    as [Hlog _].
  rewrite Hlog. split; [|exact Hdirs].
  destruct mp_ids as [|i l].
  { exfalso. apply Hne. unfold materials_to_process_of, slice_to.
    destruct (_ <? _); apply take_nil. }
  unfold create_field_sweep_for_all_materials.
  erewrite bind_run; [|reflexivity]. rewrite Hout. cbn [fst snd].
  destruct (materials_to_process_of (i :: l) max_materials) as [|j m];
    [done|].
  reflexivity.
Qed.

Lemma all_materials_succeed_witness :
  (∀ k mp_id (x : unit),
     ∃ s, (mp_get_structure_by_material_id k mp_id x).1 = Ok s) ∧
  heap Calm.world !! 0%nat = Some common_incar ∧
  materials_to_process_of ["mp-5229"; "mp-0"] MAX_MATERIALS ≠ [] ∧
  out (create_field_sweep_for_all_materials "secret" 0%nat
         ["mp-5229"; "mp-0"] MAX_MATERIALS E_FIELD_MAGNITUDES Calm.world)
    = Ok (Some (2%nat, 0%nat)) ∧
  map path_str
    (made_dirs
       (log (create_field_sweep_for_all_materials "secret" 0%nat
               ["mp-5229"; "mp-0"] MAX_MATERIALS E_FIELD_MAGNITUDES
               Calm.world))) =
    [ "finite_field_sweep_mp-5229";
      "finite_field_sweep_mp-5229/E0_ref";
      "finite_field_sweep_mp-5229/E_-0.0030_along_001";
      "finite_field_sweep_mp-5229/E_-0.0010_along_001";
      "finite_field_sweep_mp-5229/E_0.0010_along_001";
      "finite_field_sweep_mp-5229/E_0.0030_along_001";
      "finite_field_sweep_mp-0";
      "finite_field_sweep_mp-0/E0_ref";
      "finite_field_sweep_mp-0/E_-0.0030_along_001";
      "finite_field_sweep_mp-0/E_-0.0010_along_001";
      "finite_field_sweep_mp-0/E_0.0010_along_001";
      "finite_field_sweep_mp-0/E_0.0030_along_001" ].
Proof.
  assert (H1 : ∀ k mp_id (x : unit),
            ∃ s, (mp_get_structure_by_material_id k mp_id x).1 = Ok s).
  { intros k mp_id x. by eexists. }
  assert (H2 : heap Calm.world !! 0%nat = Some common_incar)
    by reflexivity.
  assert (H3 : materials_to_process_of ["mp-5229"; "mp-0"] MAX_MATERIALS
               ≠ []) by discriminate.
  destruct (all_materials_succeed "secret" 0%nat common_incar
              ["mp-5229"; "mp-0"] MAX_MATERIALS E_FIELD_MAGNITUDES
              Calm.world H1 (fun _ _ _ _ => eq_refl)
              (fun _ _ _ _ => eq_refl) (fun _ _ _ _ _ _ => eq_refl) H2 H3)
    as [Hout Hdirs].
  split; [exact H1|]. split; [exact H2|]. split; [exact H3|].
  split; [exact Hout|].
  rewrite Hdirs. vm_compute. reflexivity.
Defined.
